(** * The OCR worker of veggiescore: menu structuring and document assembly

    A shallow embedding of [workers/ocr/worker.py]: the price patterns of
    [extract_prices], the keyword scan of [detect_sections], the item scan of
    [extract_items], the resolution test of [preprocess] and the page loop of
    [process_ocr_job], followed by the properties proved about them. *)

From Stdlib Require Import List NArith ZArith QArith Qround Qminmax Qabs Bool String Ascii Lia Lqa.
From Stdlib Require Import Floats.
From Stdlib Require Uint63.
Import ListNotations.

Set Implicit Arguments.
Open Scope nat_scope.

(** ** Python text

    A Python [str] is a sequence of Unicode code points.  Literals are
    written as Rocq strings, which hold the UTF-8 bytes of the source file,
    and decoded by [py]. *)

Definition str := list N.

Fixpoint utf8_decode (bs : list N) : str :=
  match bs with
  | [] => []
  | b0 :: t0 =>
    if (b0 <? 128)%N then b0 :: utf8_decode t0
    else if (b0 <? 224)%N then
      match t0 with
      | b1 :: t1 => ((b0 - 192) * 64 + (b1 - 128))%N :: utf8_decode t1
      | [] => []
      end
    else if (b0 <? 240)%N then
      match t0 with
      | b1 :: b2 :: t2 =>
        ((b0 - 224) * 4096 + (b1 - 128) * 64 + (b2 - 128))%N :: utf8_decode t2
      | _ => []
      end
    else
      match t0 with
      | b1 :: b2 :: b3 :: t3 =>
        ((b0 - 240) * 262144 + (b1 - 128) * 4096 + (b2 - 128) * 64 + (b3 - 128))%N
          :: utf8_decode t3
      | _ => []
      end
  end.

Definition py (s : string) : str :=
  utf8_decode (map N_of_ascii (list_ascii_of_string s)).

(** [a == b] on strings. *)
Fixpoint str_eqb (a b : str) : bool :=
  match a, b with
  | [], [] => true
  | x :: a', y :: b' => (x =? y)%N && str_eqb a' b'
  | _, _ => false
  end.

(** [s.startswith(p)]. *)
Fixpoint starts_with (p s : str) : bool :=
  match p, s with
  | [], _ => true
  | _ :: _, [] => false
  | x :: p', y :: s' => (x =? y)%N && starts_with p' s'
  end.

(** [p in s] on strings: [p] occurs as a contiguous run of [s]. *)
Fixpoint str_in (p s : str) : bool :=
  starts_with p s ||
  match s with
  | [] => false
  | _ :: s' => str_in p s'
  end.

(** [x in l] on a list of strings. *)
Definition list_in (x : str) (l : list str) : bool := existsb (str_eqb x) l.

(** [sep.join(parts)]. *)
Fixpoint join (sep : str) (parts : list str) : str :=
  match parts with
  | [] => []
  | [p] => p
  | p :: rest => p ++ sep ++ join sep rest
  end.

(** ** The Unicode tables Python consults

    [str.lower], [str.isalpha], the classes [\d] and [\s] of [re], the digit
    values [float] reads and the case folding of [re.IGNORECASE] belong to the
    interpreter, not to the worker.  The worker is embedded over any such
    tables; the general theorems hold for all of them. *)

Class Unicode := {
  lower : str -> str;              (* text.lower() *)
  isalpha : N -> bool;             (* c.isalpha() *)
  decimal : N -> option N;         (* value of a \d code point *)
  isspace : N -> bool;             (* \s *)
  caseless_eq : N -> N -> bool     (* literal comparison under re.IGNORECASE *)
}.

(** The tables on the ASCII range.  They agree with Python on every code
    point below 128 and on the caseless, non-alphabetic symbols U+00A3 and
    U+20AC, which is all the worked examples contain; other code points are
    taken as caseless symbols. *)

Definition ascii_lower (c : N) : N :=
  if ((65 <=? c) && (c <=? 90))%N then (c + 32)%N else c.

Definition ascii_isalpha (c : N) : bool :=
  ((65 <=? c) && (c <=? 90) || (97 <=? c) && (c <=? 122))%N.

Definition ascii_decimal (c : N) : option N :=
  if ((48 <=? c) && (c <=? 57))%N then Some (c - 48)%N else None.

Definition ascii_isspace (c : N) : bool :=
  ((9 <=? c) && (c <=? 13) || (28 <=? c) && (c <=? 32))%N.

Definition ascii_tables : Unicode := {|
  lower := map ascii_lower;
  isalpha := ascii_isalpha;
  decimal := ascii_decimal;
  isspace := ascii_isspace;
  caseless_eq := fun a b => (ascii_lower a =? ascii_lower b)%N
|}.

(** ** Data model *)

(** A point of a bounding polygon, as PaddleOCR reports it. *)
Definition BBox := list (Q * Q).

(** One entry of [text_blocks], built by [extract_text]. *)
Record Block := {
  bbox : BBox;
  text : str;
  confidence : Q
}.

Inductive Currency := USD | EUR | GBP.

(** One entry of the list [extract_prices] returns.  [value] is the decimal
    number the matched digits denote; Python stores the binary64 number
    nearest to it. *)
Record Price := {
  value : Q;
  currency : Currency;
  raw : str;
  position : nat
}.

(** One entry of the list [extract_items] returns. *)
Record Item := {
  name : str;
  section : str;
  price : option Price;
  item_bbox : BBox
}.

(** ** Section detection *)

Definition section_keywords : list (str * list str) := [
  (py "appetizers", [py "appetizer"; py "starter"; py "small plate"; py "sharing"]);
  (py "salads", [py "salad"; py "greens"]);
  (py "soups", [py "soup"; py "bisque"; py "chowder"]);
  (py "mains", [py "main"; py "entree"; py "entrée"; py "pasta"; py "burger"; py "sandwich"]);
  (py "sides", [py "side"; py "accompaniment"]);
  (py "desserts", [py "dessert"; py "sweet"; py "pastry"]);
  (py "drinks", [py "drink"; py "beverage"; py "cocktail"; py "wine"; py "beer"])
].

Section Sections.
Context {U : Unicode}.

(** [any(keyword in text_lower for keyword in keywords)]. *)
Definition any_keyword (keywords : list str) (text_lower : str) : bool :=
  existsb (fun keyword => str_in keyword text_lower) keywords.

(** The inner loop of [detect_sections], over the entries of the keyword
    table in the order they are written. *)
Definition scan_block (detected_sections : list str) (block : Block) : list str :=
  let text_lower := lower (text block) in
  fold_left
    (fun detected entry =>
       let '(section, keywords) := entry in
       if any_keyword keywords text_lower then
         if negb (list_in section detected) then detected ++ [section]
         else detected
       else detected)
    section_keywords detected_sections.

Definition detect_sections (text_blocks : list Block) : list str :=
  fold_left scan_block text_blocks [].

End Sections.

(** *** Vocabulary for the order of the detected sections *)

(** The labels of the keyword table, in the order of the table. *)
Definition labels : list str := map fst section_keywords.

(** The position of the first occurrence of [x] in [l]. *)
Fixpoint index_of (x : str) (l : list str) : option nat :=
  match l with
  | [] => None
  | y :: l' => if str_eqb x y then Some 0 else option_map S (index_of x l')
  end.

(** [a] and [b] both occur in [l], [a] first. *)
Definition precedes (a b : str) (l : list str) : Prop :=
  exists i j, index_of a l = Some i /\ index_of b l = Some j /\ i < j.

(** The labels of [table] one of whose keywords the lower-cased text
    contains, in the order of the table. *)
Definition hits (text_lower : str) (table : list (str * list str)) : list str :=
  map fst
    (filter
       (fun entry =>
          existsb (fun keyword => str_in keyword text_lower) (snd entry))
       table).

Section FirstSeen.
Context {U : Unicode}.

(** The lower-cased text of the block contains one of the keywords of the
    section. *)
Definition mentions (section : str) (block : Block) : bool :=
  existsb
    (fun entry =>
       str_eqb (fst entry) section
       && any_keyword (snd entry) (lower (text block)))
    section_keywords.

(** The index of the first block that mentions the section. *)
Fixpoint first_seen (section : str) (text_blocks : list Block) : option nat :=
  match text_blocks with
  | [] => None
  | block :: rest =>
    if mentions section block then Some 0
    else option_map S (first_seen section rest)
  end.

End FirstSeen.

(** ** Price patterns

    The four patterns of [extract_prices] use literals, the classes [\d],
    [\s] and [[.,]], sequencing, a greedy optional group and greedy
    repetition of a class.  [matches] lists the ways a pattern matches a
    prefix of the text in the order the backtracking matcher of [re] tries
    them, so the head of the list is the match [re] reports. *)

Inductive cset :=
| CLit (c : N)
| CDigit
| CSpace
| CAny (cs : list N).

Inductive regex :=
| Eps
| Chr (c : cset)
| Seq (r1 r2 : regex)
| Opt (r : regex)
| Star (c : cset).

(** A pattern with one capturing group: what precedes the group, the group,
    what follows it. *)
Record pattern := {
  before : regex;
  group : regex;
  after : regex
}.

(** A match object: [m.group(0)], [m.group(1)], [m.start()]. *)
Record Match := {
  group0 : str;
  group1 : str;
  start : nat
}.

Definition plus (c : cset) : regex := Seq (Chr c) (Star c).

Definition lit (s : string) : regex :=
  fold_right (fun c r => Seq (Chr (CLit c)) r) Eps (py s).

(** [\d+(?:\.\d{2})?] *)
Definition amount_dot : regex :=
  Seq (plus CDigit) (Opt (Seq (Chr (CLit 46)) (Seq (Chr CDigit) (Chr CDigit)))).

(** [\d+(?:[.,]\d{2})?] *)
Definition amount_dot_comma : regex :=
  Seq (plus CDigit) (Opt (Seq (Chr (CAny [46; 44]%N)) (Seq (Chr CDigit) (Chr CDigit)))).

Definition price_patterns : list pattern := [
  {| before := Seq (lit "$") (Star CSpace); group := amount_dot; after := Eps |};
  {| before := Eps; group := amount_dot; after := Seq (Star CSpace) (lit "USD") |};
  {| before := Seq (lit "€") (Star CSpace); group := amount_dot_comma; after := Eps |};
  {| before := Seq (lit "£") (Star CSpace); group := amount_dot; after := Eps |}
].

(** [price_str.replace(',', '.')] *)
Definition replace_comma (s : str) : str :=
  map (fun c => if (c =? 44)%N then 46%N else c) s.

Section Prices.
Context {U : Unicode}.

Definition cset_mem (c : cset) (x : N) : bool :=
  match c with
  | CLit l => caseless_eq x l
  | CDigit => match decimal x with Some _ => true | None => false end
  | CSpace => isspace x
  | CAny cs => existsb (caseless_eq x) cs
  end.

(** Greedy repetition: the longest run first, then each shorter one. *)
Fixpoint star_matches (c : cset) (s : str) : list (str * str) :=
  match s with
  | [] => [([], [])]
  | x :: s' =>
    if cset_mem c x
    then map (fun mr => (x :: fst mr, snd mr)) (star_matches c s') ++ [([], s)]
    else [([], s)]
  end.

(** The pairs (matched prefix, remaining text), in backtracking order. *)
Fixpoint matches (r : regex) (s : str) : list (str * str) :=
  match r with
  | Eps => [([], s)]
  | Chr c =>
    match s with
    | x :: s' => if cset_mem c x then [([x], s')] else []
    | [] => []
    end
  | Seq r1 r2 =>
    flat_map
      (fun m1 => map (fun m2 => (fst m1 ++ fst m2, snd m2)) (matches r2 (snd m1)))
      (matches r1 s)
  | Opt r' => matches r' s ++ [([], s)]
  | Star c => star_matches c s
  end.

(** The match of a pattern anchored at the head of [s], if there is one. *)
Definition match_at (p : pattern) (s : str) (pos : nat) : option Match :=
  hd_error
    (flat_map
       (fun a =>
          flat_map
            (fun g =>
               map (fun z =>
                      {| group0 := fst a ++ fst g ++ fst z;
                         group1 := fst g;
                         start := pos |})
                   (matches (after p) (snd g)))
            (matches (group p) (snd a)))
       (matches (before p) s)).

(** [re.finditer]: the leftmost match, then the leftmost match after its end,
    and so on.  [skip] counts the code points still covered by the last
    match.  (None of the four patterns matches the empty string.) *)
Fixpoint finditer_from (p : pattern) (s : str) (pos skip : nat) : list Match :=
  match s with
  | [] => []
  | _ :: s' =>
    match skip with
    | S k => finditer_from p s' (S pos) k
    | O =>
      match match_at p s pos with
      | Some m => m :: finditer_from p s' (S pos) (List.length (group0 m) - 1)
      | None => finditer_from p s' (S pos) 0
      end
    end
  end.

Definition finditer (p : pattern) (s : str) : list Match :=
  finditer_from p s 0 0.

(** The leading decimal digits of [s], read most significant first. *)
Fixpoint digits_value (acc : N) (s : str) : N * str :=
  match s with
  | [] => (acc, [])
  | c :: s' =>
    match decimal c with
    | Some d => digits_value (10 * acc + d) s'
    | None => (acc, s)
    end
  end.

(** [float(s)] on the strings the capturing group yields: digits, optionally
    followed by a dot and digits.  The result is the decimal the digits
    denote; Python keeps the binary64 number nearest to it, so the two agree
    as numbers only where that decimal is named explicitly, as in the worked
    examples. *)
Definition float_of (s : str) : Q :=
  let '(whole, rest) := digits_value 0 s in
  match rest with
  | 46%N :: frac =>
    let '(num, _) := digits_value whole frac in
    Z.of_N num # Z.to_pos (10 ^ Z.of_nat (List.length frac))
  | _ => Z.of_N whole # 1
  end.

Definition price_of_match (m : Match) : Price :=
  let price_str := group1 m in
  let price_float := float_of (replace_comma price_str) in
  let currency :=
    if str_in (py "€") (group0 m) then EUR
    else if str_in (py "£") (group0 m) then GBP
    else USD in
  {| value := price_float; currency := currency;
     raw := group0 m; position := start m |}.

Definition extract_prices (text : str) : list Price :=
  flat_map (fun p => map price_of_match (finditer p text)) price_patterns.

End Prices.

(** ** Item extraction *)

Definition section_headers : list str :=
  [py "appetizers"; py "mains"; py "desserts"; py "drinks"; py "salads"; py "soups"].

Definition unknown : str := py "unknown".

(** [range(i, n)] *)
Definition range (i n : nat) : list nat := seq i (n - i).

(** [list(enumerate(l))] *)
Definition enumerate {A : Type} (l : list A) : list (nat * A) :=
  combine (seq 0 (List.length l)) l.

Section Items.
Context {U : Unicode}.

(** The header loop: every label of the list is tested, and each one found
    in the text is assigned in turn (the [continue] that follows the
    assignment ends an iteration that has nothing left to do). *)
Definition header_scan (text_lower : str) (current_section : str) : str :=
  fold_left
    (fun current section => if str_in section text_lower then section else current)
    section_headers current_section.

(** [len(text) > 3 and any(c.isalpha() for c in text)] *)
Definition looks_like_item (t : str) : bool :=
  (3 <? List.length t)%nat && existsb isalpha t.

(** The price loop over [j]: the first block of the window with a non-empty
    price list gives its first price.  Every [j] of the window is below
    [len(text_blocks)], so the lookup succeeds. *)
Fixpoint first_price (text_blocks : list Block) (js : list nat) : option Price :=
  match js with
  | [] => None
  | j :: js' =>
    match nth_error text_blocks j with
    | Some b =>
      match extract_prices (text b) with
      | p :: _ => Some p
      | [] => first_price text_blocks js'
      end
    | None => None
    end
  end.

Definition lookahead (text_blocks : list Block) (i : nat) : option Price :=
  first_price text_blocks (range i (Nat.min (i + 3) (List.length text_blocks))).

(** One iteration of the loop over [enumerate(text_blocks)], on the state
    ([current_section], [items]). *)
Definition item_step (text_blocks : list Block)
    (st : str * list Item) (ib : nat * Block) : str * list Item :=
  let '(current_section, items) := st in
  let '(i, block) := ib in
  let t := text block in
  let current_section := header_scan (lower t) current_section in
  if looks_like_item t then
    (current_section,
     items ++ [{| name := t; section := current_section;
                  price := lookahead text_blocks i; item_bbox := bbox block |}])
  else (current_section, items).

Definition extract_items (text_blocks : list Block) (sections : list str) : list Item :=
  let current_section := match sections with s :: _ => s | [] => unknown end in
  snd (fold_left (item_step text_blocks) (enumerate text_blocks) (current_section, [])).

End Items.

(** ** The resolution test of the image normalizer

    [preprocess] is a chain of OpenCV calls; what the worker itself decides
    is whether to resize and to which size.  [height] and [width] are the
    shape of the denoised image.  Python computes the quotients and the
    products in binary64, and so does the embedding, on the kernel's
    binary64 numbers. *)

(** [float(z)] for an integer [0 <= z < 2^53], where the conversion is
    exact; [a / b] on such integers divides their conversions. *)
Definition float_of_int (z : Z) : float :=
  PrimFloat.of_uint63 (Uint63.of_Z z).

(** [max(a, b)] on floats: [b] when [b > a], otherwise [a]. *)
Definition py_max (a b : float) : float :=
  if PrimFloat.ltb a b then b else a.

(** [int(x)]: truncation toward zero, for a finite [x] (the products below
    are finite: both factors are positive and bounded). *)
Definition int_of (x : float) : Z :=
  match Prim2SF x with
  | S754_finite negative m e =>
    let magnitude :=
      if (0 <=? e)%Z then (Z.pos m * 2 ^ e)%Z else Z.shiftr (Z.pos m) (- e) in
    if negative then (- magnitude)%Z else magnitude
  | _ => 0%Z
  end.

Definition needs_upscale (height width : Z) : bool :=
  (height <? 1200)%Z || (width <? 900)%Z.

Definition scale_factor (height width : Z) : float :=
  py_max (PrimFloat.div (float_of_int 1200) (float_of_int height))
         (PrimFloat.div (float_of_int 900) (float_of_int width)).

(** The size handed to [cv2.resize], as (new_width, new_height), or [None]
    when the image is left as it is. *)
Definition resize_call (height width : Z) : option (Z * Z) :=
  if needs_upscale height width then
    let new_width :=
      int_of (PrimFloat.mul (float_of_int width) (scale_factor height width)) in
    let new_height :=
      int_of (PrimFloat.mul (float_of_int height) (scale_factor height width)) in
    Some (new_width, new_height)
  else None.

(** ** Page and document results *)

Record PageResult := {
  full_text : str;
  text_blocks : list Block;
  prices : list Price;
  sections : list str;
  items : list Item;
  block_count : nat;
  page_number : option nat
}.

Record DocumentResult := {
  pages : list PageResult;
  total_pages : nat;
  total_text : str;
  all_items : list Item
}.

Definition newline : str := [10%N].
Definition blank_line : str := [10%N; 10%N].

Definition postprocess {U : Unicode} (blocks : list Block) : PageResult :=
  let full := join newline (map text blocks) in
  let found_sections := detect_sections blocks in
  {| full_text := full;
     text_blocks := blocks;
     prices := extract_prices full;
     sections := found_sections;
     items := extract_items blocks found_sections;
     block_count := List.length blocks;
     page_number := None |}.

(** [result['page_number'] = n] *)
Definition set_page_number (r : PageResult) (n : nat) : PageResult :=
  {| full_text := full_text r; text_blocks := text_blocks r; prices := prices r;
     sections := sections r; items := items r; block_count := block_count r;
     page_number := Some n |}.

(** The Page Result of the blocks read from the page with index [fst ib]
    (from 0), numbered from 1. *)
Definition page_result {U : Unicode} (ib : nat * list Block) : PageResult :=
  set_page_number (postprocess (snd ib)) (fst ib + 1).

(** A call either returns or raises. *)
Inductive outcome (E A : Type) :=
| Return (a : A)
| Raise (e : E).

Arguments Return {E A} a.
Arguments Raise {E A} e.

Definition bind {E A B : Type} (m : outcome E A) (k : A -> outcome E B) : outcome E B :=
  match m with
  | Return a => k a
  | Raise e => Raise e
  end.

Notation "x <- m ;; k" := (bind m (fun x => k))
  (at level 61, m at next level, right associativity).

(** The job states [main] writes to the queue. *)
Inductive JobStatus (E : Type) :=
| completed (result : DocumentResult)
| failed (error_message : E).

Arguments completed {E} result.
Arguments failed {E} error_message.

Section Job.
Context {U : Unicode}.
Variables Image Exn : Type.

(** The collaborators: OpenCV behind [preprocess], PaddleOCR behind
    [extract_text], storage and queue behind the calls that follow the
    assembly.  Each may raise. *)
Variable preprocess : Image -> outcome Exn Image.
Variable extract_text : Image -> outcome Exn (list Block).
Variable store : DocumentResult -> outcome Exn unit.

(** The loop over [enumerate(images)]; no statement of its body is guarded
    by a [try].  ([detect_layout] only reads the shape of the image and its
    result is not used.) *)
Fixpoint process_pages (idx : nat) (images : list Image)
    (all_results : list PageResult) : outcome Exn (list PageResult) :=
  match images with
  | [] => Return all_results
  | image :: rest =>
    preprocessed <- preprocess image ;;
    blocks <- extract_text preprocessed ;;
    let result := set_page_number (postprocess blocks) (idx + 1) in
    process_pages (S idx) rest (all_results ++ [result])
  end.

Definition combine_results (images : list Image) (all_results : list PageResult)
    : DocumentResult :=
  {| pages := all_results;
     total_pages := List.length images;
     total_text := join blank_line (map full_text all_results);
     all_items := flat_map items all_results |}.

(** [process_ocr_job] from the decoded page images on. *)
Definition process_ocr_job (images : list Image) : outcome Exn DocumentResult :=
  all_results <- process_pages 0 images [] ;;
  let combined_result := combine_results images all_results in
  _ <- store combined_result ;;
  Return combined_result.

(** The page is read: both collaborators return, the engine with [blocks]. *)
Definition page_reads (image : Image) (blocks : list Block) : Prop :=
  exists preprocessed,
    preprocess image = Return preprocessed
    /\ extract_text preprocessed = Return blocks.

(** What [main] records for a job it has picked up. *)
Definition main_job (images : list Image) : JobStatus Exn :=
  match process_ocr_job images with
  | Return result => completed result
  | Raise e => failed e
  end.

End Job.

(** ** The recognition result

    [ocr.ocr] returns [None], an empty list, or a list whose first entry is
    [None] or the list of recognised lines; a line is a polygon with a pair
    (text, confidence). *)

Definition OcrLine := (BBox * (str * Q))%type.

Definition OcrResult := option (list (option (list OcrLine))).

(** The body of [extract_text] after the engine has answered. *)
Definition blocks_of_result (result : OcrResult) : list Block :=
  match result with
  | Some (Some (line :: lines) :: _) =>
    map (fun l => {| bbox := fst l; text := fst (snd l); confidence := snd (snd l) |})
        (line :: lines)
  | _ => []
  end.

(** ** The deskew angle

    [angle] is the last component of [cv2.minAreaRect]; the correction and
    the test [abs(angle) > 0.5] use only comparison, negation and one sum,
    kept here on exact rationals. *)

Definition corrected_angle (angle : Q) : Q :=
  if Qlt_le_dec angle (- (45 # 1)) then (- ((90 # 1) + angle))%Q else (- angle)%Q.

(** The angle handed to [cv2.getRotationMatrix2D], or [None] when the image
    is not rotated. *)
Definition deskew_rotation (angle : Q) : option Q :=
  let a := corrected_angle angle in
  if Qlt_le_dec (1 # 2) (Qabs a) then Some a else None.

(** ** Storage paths *)

(** [s.split(sep)] for a separator of one code point. *)
Fixpoint split (sep : N) (s : str) : list str :=
  match s with
  | [] => [[]]
  | c :: s' =>
    if (c =? sep)%N then [] :: split sep s'
    else match split sep s' with
         | part :: parts => (c :: part) :: parts
         | [] => [[c]]
         end
  end.

(** The two parts around the last [sep] of [s], if [sep] occurs. *)
Fixpoint rsplit_once (sep : N) (s : str) : option (str * str) :=
  match s with
  | [] => None
  | c :: s' =>
    match rsplit_once sep s' with
    | Some (before_sep, after_sep) => Some (c :: before_sep, after_sep)
    | None => if (c =? sep)%N then Some ([], s') else None
    end
  end.

(** [s.rsplit(sep, 1)] *)
Definition rsplit1 (sep : N) (s : str) : list str :=
  match rsplit_once sep s with
  | Some (before_sep, after_sep) => [before_sep; after_sep]
  | None => [s]
  end.

(** [storage_path.split('/')[0] if '/' not in storage_path else 'artifacts'] *)
Definition bucket_of (storage_path : str) : str :=
  if negb (str_in (py "/") storage_path)
  then hd [] (split 47 storage_path)
  else py "artifacts".

(** [storage_path if '/' in storage_path else storage_path] *)
Definition file_path_of (storage_path : str) : str :=
  if str_in (py "/") storage_path then storage_path else storage_path.

(** [storage_path.split('.')[-1].lower()] *)
Definition file_ext_of {U : Unicode} (storage_path : str) : str :=
  lower (last (split 46 storage_path) []).

(** [f"{storage_path.rsplit('.', 1)[0]}-ocr-result.json"] *)
Definition result_path_of (storage_path : str) : str :=
  hd [] (rsplit1 46 storage_path) ++ py "-ocr-result.json".

(** ** Vocabulary for the price patterns *)

(** The pattern cannot match without reading a [\d]. *)
Fixpoint reads_digit (r : regex) : bool :=
  match r with
  | Chr CDigit => true
  | Seq r1 r2 => reads_digit r1 || reads_digit r2
  | _ => false
  end.

(** A block with the given text, as the examples need it. *)
Definition block_of (s : string) : Block :=
  {| bbox := []; text := py s; confidence := 1 |}.

Definition burger_blocks : list Block :=
  [block_of "Burger"; block_of "Fries"; block_of "$12.99"; block_of "Salad"].

Definition price_12_99 : Price :=
  {| value := 1299 # 100; currency := USD; raw := py "$12.99"; position := 0 |}.

Definition soup_blocks : list Block :=
  [block_of "Soup of the day"; block_of "Coffee"].

(** Collaborators for the worked examples: an image is either readable, and
    then stands for the blocks the engine reads from it, or corrupt, and then
    makes OpenCV raise. *)
Inductive toy_image :=
| readable (blocks : list Block)
| corrupt.

Definition toy_preprocess (image : toy_image) : outcome string toy_image :=
  match image with
  | readable _ => Return image
  | corrupt => Raise "cv2.error"%string
  end.

Definition toy_extract_text (image : toy_image) : outcome string (list Block) :=
  match image with
  | readable blocks => Return blocks
  | corrupt => Return []
  end.

Definition toy_store (doc : DocumentResult) : outcome string unit := Return tt.

Definition toy_job {U : Unicode} : list toy_image -> outcome string DocumentResult :=
  process_ocr_job toy_preprocess toy_extract_text toy_store.

Definition toy_main {U : Unicode} : list toy_image -> JobStatus string :=
  main_job toy_preprocess toy_extract_text toy_store.

(** An engine that raises on a page without text, and a storage that
    refuses every upload. *)
Definition strict_extract_text (image : toy_image) : outcome string (list Block) :=
  match image with
  | readable (b :: blocks) => Return (b :: blocks)
  | _ => Raise "ocr failed"%string
  end.

Definition full_store (doc : DocumentResult) : outcome string unit :=
  Raise "storage full"%string.

(** The labels of the header list that the lower-cased text of the block
    contains, in list order. *)
Definition header_labels_in {U : Unicode} (block : Block) : list str :=
  filter (fun s => str_in s (lower (text block))) section_headers.

(** The item the scan makes from fragment [fst ib], when it started with
    the section [init]. *)
Definition item_of_fragment {U : Unicode} (blocks : list Block) (init : str)
    (ib : nat * Block) : Item :=
  {| name := text (snd ib);
     section := last (flat_map header_labels_in (firstn (S (fst ib)) blocks)) init;
     price := lookahead blocks (fst ib);
     item_bbox := bbox (snd ib) |}.

(** The fragments that look like an item, each with its index, in fragment
    order: the k-th of them is the fragment the k-th item is made from. *)
Definition item_fragments {U : Unicode} (blocks : list Block) : list (nat * Block) :=
  filter (fun ib => looks_like_item (text (snd ib))) (enumerate blocks).

(** Two fragment sequences in which a text occurs twice. *)
Definition soup_twice_blocks : list Block :=
  [block_of "Soup"; block_of "$1.00"; block_of "Tea!"; block_of "Cake";
   block_of "Soup"; block_of "$2.00"].

Definition price_2_00 : Price :=
  {| value := 200 # 100; currency := USD; raw := py "$2.00"; position := 0 |}.

Definition wine_twice_blocks : list Block :=
  [block_of "Mains"; block_of "House wine"; block_of "Drinks";
   block_of "House wine"].

(** * Properties *)

Example py_euro : py "€5" = [8364; 53]%N.
Proof. reflexivity. Qed.

Example py_pound : py "£" = [163]%N.
Proof. reflexivity. Qed.

Example py_e_acute : py "entrée" = [101; 110; 116; 114; 233; 101]%N.
Proof. reflexivity. Qed.

(** ** Prices *)

(** C4 (as the spec states it) fails: extract_prices does produce a Price
    from the text "£5". *)
Lemma extract_prices_pound_5_nonempty :
  extract_prices (U := ascii_tables) (py "£5") <> [].
Proof. vm_compute. discriminate. Qed.

(** C4 (as the code behaves): the decimals of the pound pattern are optional,
    so "£5" yields exactly one Price, of value 5 and currency GBP. *)
Theorem extract_prices_pound_5 :
  extract_prices (U := ascii_tables) (py "£5")
  = [{| value := 5 # 1; currency := GBP; raw := py "£5"; position := 0 |}].
Proof. vm_compute. reflexivity. Qed.

(** C7: "€10,99" yields one Price of value 10.99 and currency EUR, the comma
    read as a decimal point, and "$8.50" yields one Price of value 8.50 and
    currency USD. *)
Theorem extract_prices_euro_comma_and_dollar :
  extract_prices (U := ascii_tables) (py "€10,99")
  = [{| value := 1099 # 100; currency := EUR; raw := py "€10,99"; position := 0 |}]
  /\ extract_prices (U := ascii_tables) (py "$8.50")
  = [{| value := 850 # 100; currency := USD; raw := py "$8.50"; position := 0 |}]
  /\ replace_comma (py "10,99") = py "10.99"
  /\ (850 # 100 == 8.5)%Q.
Proof. repeat split; vm_compute; reflexivity. Qed.

(** ** Sections *)

(** C3 (as the code behaves): on the fragments "Starters", "Caesar Salad $9",
    "Burger $12" detect_sections returns appetizers, salads and mains, in that
    order: "burger" is a keyword of mains. *)
Theorem detect_sections_starters_salad_burger :
  detect_sections (U := ascii_tables)
    [block_of "Starters"; block_of "Caesar Salad $9"; block_of "Burger $12"]
  = [py "appetizers"; py "salads"; py "mains"].
Proof. vm_compute. reflexivity. Qed.

(** C3 (as the spec states it) fails: the result is not the two-element list
    appetizers, salads. *)
Lemma detect_sections_starters_not_two :
  detect_sections (U := ascii_tables)
    [block_of "Starters"; block_of "Caesar Salad $9"; block_of "Burger $12"]
  <> [py "appetizers"; py "salads"].
Proof. vm_compute. discriminate. Qed.

(** ** Items *)

(** C6: on the fragments "Burger", "Fries", "$12.99", "Salad" extract_items
    emits "Burger" with the price 12.99 USD found two fragments further,
    "Fries" with the same price, and "Salad" with no price, whatever the
    section list is. *)
Theorem extract_items_burger_fries_salad (sections : list str) :
  let current := match sections with s :: _ => s | [] => unknown end in
  extract_items (U := ascii_tables) burger_blocks sections
  = [{| name := py "Burger"; section := current;
        price := Some price_12_99; item_bbox := [] |};
     {| name := py "Fries"; section := current;
        price := Some price_12_99; item_bbox := [] |};
     {| name := py "Salad"; section := current;
        price := None; item_bbox := [] |}].
Proof. destruct sections; vm_compute; reflexivity. Qed.

Lemma last_cons_default (A : Type) (l : list A) (a d : A) :
  last (a :: l) d = last l a.
Proof.
  revert a d. induction l as [|x l IH]; intros a d; [reflexivity|].
  change (last (a :: x :: l) d) with (last (x :: l) d).
  now rewrite !IH.
Qed.

Lemma fold_assign_last (A : Type) (f : A -> bool) (l : list A) (d : A) :
  fold_left (fun cur x => if f x then x else cur) l d = last (filter f l) d.
Proof.
  revert d. induction l as [|x l IH]; intros d; simpl; [reflexivity|].
  rewrite IH. destruct (f x); [|reflexivity].
  now rewrite last_cons_default.
Qed.

(** C2 (as the spec states it) fails: the text "Appetizers and Mains"
    contains the labels appetizers and mains; the first of them in the list
    is appetizers, yet the item emitted for the fragment carries mains. *)
Lemma header_first_match_counterexample :
  let t := lower (Unicode := ascii_tables) (py "Appetizers and Mains") in
  filter (fun s => str_in s t) section_headers = [py "appetizers"; py "mains"]
  /\ header_scan t unknown = py "mains"
  /\ header_scan t unknown <> py "appetizers"
  /\ map section
       (extract_items (U := ascii_tables) [block_of "Appetizers and Mains"] [])
     = [py "mains"].
Proof. vm_compute. repeat split; try reflexivity. discriminate. Qed.

(** C2 (as the code behaves): after the header loop of a fragment,
    current_section is the last label of the list that its lower-cased text
    contains, or is unchanged when it contains none; an item emitted for the
    fragment carries that section. *)
Theorem header_last_match_wins {U : Unicode}
    (blocks : list Block) (current : str) (items : list Item)
    (i : nat) (block : Block) :
  let found := filter (fun s => str_in s (lower (text block))) section_headers in
  let st := item_step blocks (current, items) (i, block) in
  fst st = last found current
  /\ snd st
     = if looks_like_item (text block)
       then items ++ [{| name := text block; section := last found current;
                         price := lookahead blocks i; item_bbox := bbox block |}]
       else items.
Proof.
  cbv zeta. unfold item_step, header_scan.
  rewrite fold_assign_last.
  destruct (looks_like_item (text block)); split; reflexivity.
Qed.

(** *** The price an item receives *)

Lemma first_price_seq {U : Unicode} (blocks : list Block) (n i : nat) (p : Price) :
  first_price blocks (seq i n) = Some p ->
  exists j b rest,
    i <= j < i + n
    /\ nth_error blocks j = Some b
    /\ extract_prices (text b) = p :: rest
    /\ forall k bk, i <= k < j -> nth_error blocks k = Some bk ->
                    extract_prices (text bk) = [].
Proof.
  revert i. induction n as [|n IH]; intros i; simpl; [discriminate|].
  destruct (nth_error blocks i) as [b|] eqn:Hb; [|discriminate].
  destruct (extract_prices (text b)) as [|q rest] eqn:Hq.
  - intros H. destruct (IH _ H) as (j & bj & r & Hj & Hnth & Hp & Hbefore).
    exists j, bj, r. repeat split; try lia; auto.
    intros k bk Hk Hbk. destruct (Nat.eq_dec k i) as [->|Hne].
    + rewrite Hb in Hbk. injection Hbk as <-. exact Hq.
    + apply (Hbefore k bk); [lia | exact Hbk].
  - intros H. injection H as ->.
    exists i, b, rest. repeat split; try lia; auto.
Qed.

Lemma lookahead_first {U : Unicode} (blocks : list Block) (i : nat) (p : Price) :
  lookahead blocks i = Some p ->
  exists j b rest,
    i <= j < i + 3
    /\ nth_error blocks j = Some b
    /\ extract_prices (text b) = p :: rest
    /\ forall k bk, i <= k < j -> nth_error blocks k = Some bk ->
                    extract_prices (text bk) = [].
Proof.
  unfold lookahead, range. intros H.
  destruct (first_price_seq _ _ _ H) as (j & b & rest & Hj & Hrest).
  exists j, b, rest. split; [lia | exact Hrest].
Qed.

Lemma enumerate_from_nth (A : Type) (l : list A) (n i : nat) (x : A) :
  In (i, x) (combine (seq n (List.length l)) l) ->
  n <= i /\ nth_error l (i - n) = Some x.
Proof.
  revert n. induction l as [|y l IH]; intros n; simpl; [tauto|].
  intros [H|H].
  - injection H as <- <-. rewrite Nat.sub_diag. split; [lia | reflexivity].
  - destruct (IH _ H) as [Hle Hnth]. split; [lia|].
    replace (i - n) with (S (i - S n)) by lia. exact Hnth.
Qed.

Lemma enumerate_nth (A : Type) (l : list A) (i : nat) (x : A) :
  In (i, x) (enumerate l) -> nth_error l i = Some x.
Proof.
  intros H. apply enumerate_from_nth in H.
  now rewrite Nat.sub_0_r in H.
Qed.

(** ** The resolution test *)

(** C8: for an image whose height and width are positive (and below 2^53,
    so that they are binary64 numbers), cv2.resize is called exactly when
    height < 1200 or width < 900; both sides of the new size are the old
    ones times one factor, the larger of 1200/height and 900/width as
    Python's max takes it, truncated by int.  An 800 by 600 image (either
    way round) is resized, a 1600 by 1200 image (either way round) is
    not. *)
Theorem upscale_when_below_minimum (height width : Z) :
  (0 < height < 9007199254740992)%Z -> (0 < width < 9007199254740992)%Z ->
  (resize_call height width <> None <-> (height < 1200)%Z \/ (width < 900)%Z)
  /\ (forall new_width new_height,
        resize_call height width = Some (new_width, new_height) ->
        let by_height := PrimFloat.div (float_of_int 1200) (float_of_int height) in
        let by_width := PrimFloat.div (float_of_int 900) (float_of_int width) in
        exists f : float,
          (f = by_width /\ PrimFloat.ltb by_height by_width = true
           \/ f = by_height /\ PrimFloat.ltb by_height by_width = false)
          /\ new_width = int_of (PrimFloat.mul (float_of_int width) f)
          /\ new_height = int_of (PrimFloat.mul (float_of_int height) f))
  /\ resize_call 800 600 = Some (900, 1200)%Z
  /\ resize_call 600 800 = Some (1600, 1200)%Z
  /\ resize_call 1600 1200 = None
  /\ resize_call 1200 1600 = None.
Proof.
  intros _ _. split; [|split].
  - unfold resize_call, needs_upscale.
    destruct (Z.ltb_spec height 1200); destruct (Z.ltb_spec width 900); simpl;
      split; intros H'; try discriminate; try lia; try congruence.
  - unfold resize_call. intros nw nh.
    destruct (needs_upscale height width); [|discriminate].
    intros H. injection H as <- <-. cbv zeta.
    exists (scale_factor height width). unfold scale_factor, py_max.
    destruct (PrimFloat.ltb (PrimFloat.div (float_of_int 1200) (float_of_int height))
                            (PrimFloat.div (float_of_int 900) (float_of_int width)));
      repeat split; auto.
  - repeat split; vm_compute; reflexivity.
Qed.

Lemma upscale_when_below_minimum_witness :
  (resize_call 220 330 <> None <-> (220 < 1200)%Z \/ (330 < 900)%Z)
  /\ (forall new_width new_height,
        resize_call 220 330 = Some (new_width, new_height) ->
        let by_height := PrimFloat.div (float_of_int 1200) (float_of_int 220) in
        let by_width := PrimFloat.div (float_of_int 900) (float_of_int 330) in
        exists f : float,
          (f = by_width /\ PrimFloat.ltb by_height by_width = true
           \/ f = by_height /\ PrimFloat.ltb by_height by_width = false)
          /\ new_width = int_of (PrimFloat.mul (float_of_int 330) f)
          /\ new_height = int_of (PrimFloat.mul (float_of_int 220) f))
  /\ resize_call 800 600 = Some (900, 1200)%Z
  /\ resize_call 600 800 = Some (1600, 1200)%Z
  /\ resize_call 1600 1200 = None
  /\ resize_call 1200 1600 = None.
Proof.
  apply (@upscale_when_below_minimum 220 330); split; reflexivity.
Defined.

(** The sizes are those of binary64 arithmetic, not of exact quotients:
    330 * (1200 / 220) falls just below 1800. *)
Example resize_rounds_as_binary64 :
  resize_call 220 330 = Some (1799, 1200)%Z
  /\ resize_call 1300 660 = Some (899, 1772)%Z
  /\ resize_call 1124 2000 = Some (2135, 1199)%Z.
Proof. repeat split; vm_compute; reflexivity. Qed.

(** ** Document assembly *)

Lemma map_snd_enumerate_from (A B : Type) (g : A -> B) (l : list A) (n : nat) :
  map (fun ib => g (snd ib)) (combine (seq n (List.length l)) l) = map g l.
Proof.
  revert n. induction l as [|x l IH]; intros n; simpl; [reflexivity|].
  now rewrite IH.
Qed.

Lemma map_fst_enumerate_from (A : Type) (l : list A) (n : nat) :
  map fst (combine (seq n (List.length l)) l) = seq n (List.length l).
Proof.
  revert n. induction l as [|x l IH]; intros n; simpl; [reflexivity|].
  now rewrite IH.
Qed.

Lemma page_numbers_from (A : Type) (l : list A) (n : nat) :
  map (fun ib : nat * A => Some (fst ib + 1)) (combine (seq n (List.length l)) l)
  = map Some (seq (S n) (List.length l)).
Proof.
  revert n. induction l as [|x l IH]; intros n; simpl; [reflexivity|].
  rewrite IH. f_equal. f_equal. lia.
Qed.

Section JobProperties.
Context {U : Unicode}.
Variables Image Exn : Type.
Variable preprocess : Image -> outcome Exn Image.
Variable extract_text : Image -> outcome Exn (list Block).
Variable store : DocumentResult -> outcome Exn unit.

Lemma process_pages_all_read (images : list Image) (read : list (list Block)) :
  Forall2 (page_reads preprocess extract_text) images read ->
  forall idx all_results,
    process_pages preprocess extract_text idx images all_results
    = Return (all_results
              ++ map page_result (combine (seq idx (List.length read)) read)).
Proof.
  induction 1 as [|image blocks images read (pre & Hpre & Htext) _ IH];
    intros idx acc; simpl.
  - now rewrite app_nil_r.
  - rewrite Hpre. simpl. rewrite Htext. simpl.
    rewrite IH, <- app_assoc. reflexivity.
Qed.


(** C9: when every page is read, the pages of the Document Result are the
    Page Results of the pages in page order, numbered from 1; its text is
    their texts joined by a blank line, its items are their items
    concatenated in page order, and its page count is the number of pages.
    process_ocr_job returns this result once it is stored. *)
Theorem document_result_of_read_pages (images : list Image)
    (read : list (list Block)) :
  Forall2 (page_reads preprocess extract_text) images read ->
  exists doc,
    (store doc = Return tt ->
     process_ocr_job preprocess extract_text store images = Return doc
     /\ main_job preprocess extract_text store images = completed doc)
    /\ pages doc = map page_result (enumerate read)
    /\ map page_number (pages doc) = map Some (seq 1 (List.length images))
    /\ total_pages doc = List.length images
    /\ total_text doc
       = join blank_line (map (fun blocks => full_text (postprocess blocks)) read)
    /\ all_items doc
       = List.concat (map (fun blocks => items (postprocess blocks)) read).
Proof.
  intros Hread.
  pose proof (process_pages_all_read Hread 0 []) as Hpages. simpl in Hpages.
  exists (combine_results images (map page_result (enumerate read))).
  split; [|split; [|split; [|split; [|split]]]].
  - intros Hstore. unfold main_job, process_ocr_job.
    rewrite Hpages. simpl. unfold enumerate in Hstore |- *.
    rewrite Hstore. simpl. split; reflexivity.
  - reflexivity.
  - simpl. unfold enumerate, page_result. rewrite map_map. simpl.
    rewrite (Forall2_length Hread). apply page_numbers_from.
  - reflexivity.
  - simpl. unfold enumerate, page_result. rewrite map_map. simpl.
    now rewrite (map_snd_enumerate_from (fun b => full_text (postprocess b))).
  - simpl. rewrite flat_map_concat_map. unfold enumerate, page_result.
    rewrite map_map. simpl.
    now rewrite (map_snd_enumerate_from
                   (fun b => extract_items b (detect_sections b))).
Qed.


End JobProperties.

Lemma document_result_of_read_pages_witness :
  exists doc,
    (toy_store doc = Return tt ->
     toy_job (U := ascii_tables) [readable burger_blocks; readable soup_blocks]
     = Return doc
     /\ toy_main (U := ascii_tables) [readable burger_blocks; readable soup_blocks]
        = completed doc)
    /\ pages doc
       = map (page_result (U := ascii_tables)) (enumerate [burger_blocks; soup_blocks])
    /\ map page_number (pages doc) = map Some (seq 1 2)
    /\ total_pages doc = 2
    /\ total_text doc
       = join blank_line
           (map (fun blocks => full_text (postprocess (U := ascii_tables) blocks))
                [burger_blocks; soup_blocks])
    /\ all_items doc
       = List.concat
           (map (fun blocks => items (postprocess (U := ascii_tables) blocks))
                [burger_blocks; soup_blocks]).
Proof.
  apply (@document_result_of_read_pages ascii_tables toy_image string
           toy_preprocess toy_extract_text toy_store
           [readable burger_blocks; readable soup_blocks]
           [burger_blocks; soup_blocks]).
  repeat (constructor; [eexists; split; reflexivity|]). constructor.
Defined.

(** The end-to-end scenario of C9: page 1 yields 3 items, page 2 yields 2;
    the document has 2 pages and 5 items, page 1's first, and its text is
    page 1's text, a blank line, page 2's text. *)
Example two_page_document :
  exists doc,
    toy_job (U := ascii_tables) [readable burger_blocks; readable soup_blocks]
    = Return doc
    /\ map (fun page => List.length (items page)) (pages doc) = [3; 2]
    /\ total_pages doc = 2
    /\ List.length (all_items doc) = 5
    /\ map name (all_items doc)
       = [py "Burger"; py "Fries"; py "Salad"; py "Soup of the day"; py "Coffee"]
    /\ total_text doc
       = full_text (postprocess (U := ascii_tables) burger_blocks)
         ++ blank_line ++ full_text (postprocess (U := ascii_tables) soup_blocks).
Proof. eexists. split; [reflexivity|]. vm_compute. repeat split. Qed.



(** ** The order of the detected sections *)

Lemma str_eqb_eq (a b : str) : str_eqb a b = true <-> a = b.
Proof.
  revert b. induction a as [|x a IH]; intros [|y b]; simpl;
    try (split; [discriminate | discriminate]); [tauto|].
  rewrite andb_true_iff, N.eqb_eq, IH.
  split; [intros [-> ->]; reflexivity | intros H; injection H; auto].
Qed.

Lemma str_eqb_refl (a : str) : str_eqb a a = true.
Proof. now apply str_eqb_eq. Qed.

Lemma str_eqb_neq (a b : str) : str_eqb a b = false <-> a <> b.
Proof.
  rewrite <- str_eqb_eq. destruct (str_eqb a b); split; congruence.
Qed.

Lemma list_in_In (x : str) (l : list str) : list_in x l = true <-> In x l.
Proof.
  unfold list_in. rewrite existsb_exists. split.
  - intros (y & Hy & Heq). apply str_eqb_eq in Heq. now subst.
  - intros H. exists x. split; [exact H | apply str_eqb_refl].
Qed.

Lemma index_of_None (x : str) (l : list str) : index_of x l = None <-> ~ In x l.
Proof.
  induction l as [|y l IH]; simpl; [tauto|].
  destruct (str_eqb x y) eqn:E.
  - apply str_eqb_eq in E. subst. split; [discriminate | tauto].
  - apply str_eqb_neq in E.
    destruct (index_of x l); simpl; split; try discriminate; intuition congruence.
Qed.

Lemma index_of_Some (x : str) (l : list str) (i : nat) :
  index_of x l = Some i -> In x l /\ i < List.length l.
Proof.
  revert i. induction l as [|y l IH]; intros i; simpl; [discriminate|].
  destruct (str_eqb x y) eqn:E.
  - apply str_eqb_eq in E. intros H. injection H as <-. split; [auto | lia].
  - destruct (index_of x l) as [k|]; simpl; [|discriminate].
    intros H. injection H as <-. destruct (IH k eq_refl). split; [auto | lia].
Qed.

Lemma index_of_In (x : str) (l : list str) :
  In x l -> exists i, index_of x l = Some i.
Proof.
  intros H. destruct (index_of x l) as [i|] eqn:E; [now exists i|].
  apply index_of_None in E. contradiction.
Qed.

Lemma index_of_app (x : str) (l m : list str) :
  index_of x (l ++ m)
  = match index_of x l with
    | Some i => Some i
    | None => option_map (fun j => List.length l + j) (index_of x m)
    end.
Proof.
  induction l as [|y l IH]; simpl.
  - destruct (index_of x m); reflexivity.
  - destruct (str_eqb x y); [reflexivity|].
    rewrite IH. destruct (index_of x l); simpl; [reflexivity|].
    destruct (index_of x m); reflexivity.
Qed.

Lemma precedes_nil (a b : str) : ~ precedes a b [].
Proof. intros (i & j & H & _). discriminate. Qed.

Lemma precedes_cons (a b x : str) (l : list str) :
  precedes a b (x :: l)
  <-> (a = x /\ b <> x /\ In b l) \/ (a <> x /\ b <> x /\ precedes a b l).
Proof.
  unfold precedes. simpl. split.
  - intros (i & j & Hi & Hj & Hlt).
    destruct (str_eqb a x) eqn:Ea; destruct (str_eqb b x) eqn:Eb;
      try (injection Hi as <-); try (injection Hj as <-); try lia.
    + left. apply str_eqb_eq in Ea. apply str_eqb_neq in Eb.
      destruct (index_of b l) eqn:E; [|discriminate].
      repeat split; auto. now apply index_of_Some in E.
    + right. apply str_eqb_neq in Ea. apply str_eqb_neq in Eb.
      destruct (index_of a l) as [i'|]; [|discriminate].
      destruct (index_of b l) as [j'|]; [|discriminate].
      simpl in Hi, Hj. injection Hi as <-. injection Hj as <-.
      repeat split; auto. exists i', j'. repeat split; auto. lia.
  - intros [(-> & Hb & Hin)|(Ha & Hb & (i & j & Hi & Hj & Hlt))].
    + apply str_eqb_neq in Hb. rewrite str_eqb_refl, Hb.
      destruct (index_of_In _ _ Hin) as [j Hj]. rewrite Hj.
      exists 0, (S j). repeat split; auto. lia.
    + apply str_eqb_neq in Ha. apply str_eqb_neq in Hb.
      rewrite Ha, Hb, Hi, Hj. exists (S i), (S j). repeat split; auto. lia.
Qed.

Lemma precedes_In (a b : str) (l : list str) :
  precedes a b l -> In a l /\ In b l.
Proof.
  intros (i & j & Hi & Hj & _).
  apply index_of_Some in Hi. apply index_of_Some in Hj. tauto.
Qed.

Lemma precedes_app (a b : str) (l m : list str) :
  precedes a b (l ++ m)
  <-> precedes a b l
      \/ (In a l /\ ~ In b l /\ In b m)
      \/ (~ In a l /\ ~ In b l /\ precedes a b m).
Proof.
  unfold precedes. rewrite !index_of_app.
  destruct (index_of a l) as [ia|] eqn:Ea; destruct (index_of b l) as [ib|] eqn:Eb.
  - split.
    + intros (i & j & Hi & Hj & Hlt). left. exists i, j. auto.
    + intros [H|[(_ & H & _)|(H & _)]]; [exact H | |].
      * apply index_of_Some in Eb. tauto.
      * apply index_of_Some in Ea. tauto.
  - pose proof (proj1 (index_of_Some _ _ Ea)) as Ha.
    pose proof (index_of_Some _ _ Ea) as [_ Hlen].
    pose proof (proj1 (index_of_None _ _) Eb) as Hb.
    split.
    + intros (i & j & Hi & Hj & Hlt). right. left.
      destruct (index_of b m) eqn:E; [|discriminate].
      apply index_of_Some in E. tauto.
    + intros [(i & j & _ & Hj & _)|[(_ & _ & Hin)|(H & _)]];
        [discriminate | | contradiction].
      destruct (index_of_In _ _ Hin) as [j Hj]. rewrite Hj. simpl.
      exists ia, (List.length l + j). repeat split; auto. lia.
  - pose proof (index_of_Some _ _ Eb) as [Hb Hlen].
    split.
    + intros (i & j & Hi & Hj & Hlt). injection Hj as <-.
      destruct (index_of a m); [|discriminate]. simpl in Hi.
      injection Hi as <-. lia.
    + intros [(i & j & Hi & _)|[(_ & H & _)|(_ & H & _)]];
        [discriminate | contradiction | contradiction].
  - pose proof (proj1 (index_of_None _ _) Ea) as Ha.
    pose proof (proj1 (index_of_None _ _) Eb) as Hb.
    split.
    + intros (i & j & Hi & Hj & Hlt). right. right.
      destruct (index_of a m) as [i'|]; [|discriminate].
      destruct (index_of b m) as [j'|]; [|discriminate].
      simpl in Hi, Hj. injection Hi as <-. injection Hj as <-.
      repeat split; auto. exists i', j'. repeat split; auto. lia.
    + intros [(i & j & Hi & _)|[(H & _)|(_ & _ & (i & j & Hi & Hj & Hlt))]];
        [discriminate | contradiction |].
      rewrite Hi, Hj. simpl.
      exists (List.length l + i), (List.length l + j). repeat split; auto. lia.
Qed.

Lemma precedes_filter (f : str -> bool) (a b : str) (l : list str) :
  f a = true -> f b = true ->
  (precedes a b (filter f l) <-> precedes a b l).
Proof.
  intros Ha Hb. induction l as [|x l IH]; simpl; [tauto|].
  destruct (f x) eqn:Hx.
  - rewrite !precedes_cons, IH, filter_In. tauto.
  - rewrite precedes_cons, IH.
    assert (a <> x) by congruence. assert (b <> x) by congruence. tauto.
Qed.

Lemma list_in_snoc (x s : str) (d : list str) :
  list_in x (d ++ [s]) = list_in x d || str_eqb x s.
Proof.
  unfold list_in. rewrite existsb_app. simpl. now rewrite orb_false_r.
Qed.

Lemma hits_incl (tl : str) (table : list (str * list str)) (s : str) :
  In s (hits tl table) -> In s (map fst table).
Proof.
  unfold hits. rewrite !in_map_iff.
  intros (e & He & Hin). apply filter_In in Hin. exists e. tauto.
Qed.

Lemma hits_NoDup (tl : str) (table : list (str * list str)) :
  NoDup (map fst table) -> NoDup (hits tl table).
Proof.
  unfold hits. induction table as [|e t IH]; simpl; [constructor|].
  intros H. inversion H as [|? ? Hnotin Ht]; subst.
  destruct (existsb _ (snd e)); [|auto].
  simpl. constructor; [|auto].
  intros Hin. apply Hnotin. now apply (hits_incl tl).
Qed.

(** The inner loop appends to [detected] the labels the text hits that are
    not yet in it, in the order of the table. *)
Lemma scan_fold (tl : str) (table : list (str * list str)) (d : list str) :
  NoDup (map fst table) ->
  fold_left
    (fun detected entry =>
       let '(section, keywords) := entry in
       if existsb (fun keyword => str_in keyword tl) keywords then
         if negb (list_in section detected) then detected ++ [section]
         else detected
       else detected)
    table d
  = d ++ filter (fun s => negb (list_in s d)) (hits tl table).
Proof.
  revert d. induction table as [|[s ks] t IH]; intros d Hnd; simpl.
  - now rewrite app_nil_r.
  - inversion Hnd as [|? ? Hnotin Ht]; subst.
    unfold hits. simpl.
    destruct (existsb (fun keyword => str_in keyword tl) ks); [|now apply IH].
    simpl. destruct (list_in s d) eqn:Hs; simpl; [now apply IH|].
    rewrite (IH _ Ht), <- app_assoc. simpl. do 2 f_equal.
    apply filter_ext_in. intros x Hx.
    rewrite list_in_snoc.
    assert (x <> s) as Hne.
    { intros ->. apply Hnotin. now apply (hits_incl tl). }
    apply str_eqb_neq in Hne. now rewrite Hne, orb_false_r.
Qed.

Lemma precedes_hits (tl : str) (table : list (str * list str)) (a b : str) :
  NoDup (map fst table) ->
  (precedes a b (hits tl table)
   <-> In a (hits tl table) /\ In b (hits tl table)
       /\ precedes a b (map fst table)).
Proof.
  induction table as [|e t IH]; intros Hnd.
  - simpl. split; [intros H; now apply precedes_nil in H | tauto].
  - inversion Hnd as [|? ? Hnotin Ht]; subst. specialize (IH Ht).
    pose proof (hits_incl tl t) as Hincl.
    change (map fst (e :: t)) with (fst e :: map fst t).
    unfold hits in *. simpl.
    destruct (existsb _ (snd e)); simpl.
    + rewrite !precedes_cons, IH. split.
      * intros [(-> & Hb & Hin)|(Ha & Hb & Hina & Hinb & Hp)].
        -- split; [now left|]. split; [now right|]. left. auto.
        -- split; [now right|]. split; [now right|]. right. auto.
      * intros ([Ha|Ha] & [Hb|Hb] & [(Ha' & Hb' & Hin')|(Ha' & Hb' & Hp)]);
          subst; try congruence; try tauto.
    + rewrite precedes_cons, IH. split.
      * intros (Ha & Hb & Hp). split; [exact Ha|]. split; [exact Hb|].
        right. split; [|split; [|exact Hp]];
          intros Heq; apply Hnotin; rewrite <- Heq; auto.
      * intros (Ha & Hb & [(Heq & _)|(_ & _ & Hp)]); [|tauto].
        exfalso. apply Hnotin. rewrite <- Heq. auto.
Qed.

Lemma labels_NoDup : NoDup (map fst section_keywords).
Proof.
  vm_compute. repeat constructor; simpl; intuition discriminate.
Qed.

Section OrderProofs.
Context {U : Unicode}.

Lemma scan_block_app (d : list str) (b : Block) :
  scan_block d b
  = d ++ filter (fun s => negb (list_in s d))
                (hits (lower (text b)) section_keywords).
Proof. apply scan_fold, labels_NoDup. Qed.

Lemma mentions_hits (s : str) (b : Block) :
  mentions s b = true <-> In s (hits (lower (text b)) section_keywords).
Proof.
  unfold mentions, hits, any_keyword.
  rewrite existsb_exists, in_map_iff. split.
  - intros (e & Hin & H). apply andb_true_iff in H. destruct H as [Heq Hany].
    apply str_eqb_eq in Heq. exists e. split; [exact Heq|].
    apply filter_In. auto.
  - intros (e & Heq & Hin). apply filter_In in Hin. exists e.
    split; [tauto|]. apply andb_true_iff. split; [|tauto].
    now apply str_eqb_eq.
Qed.

Lemma first_seen_lt (s : str) (tb : list Block) (i : nat) :
  first_seen s tb = Some i -> i < List.length tb.
Proof.
  revert i. induction tb as [|b tb IH]; intros i; simpl; [discriminate|].
  destruct (mentions s b).
  - intros H. injection H as <-. lia.
  - destruct (first_seen s tb) as [k|]; simpl; [|discriminate].
    intros H. injection H as <-. specialize (IH k eq_refl). lia.
Qed.

Lemma first_seen_snoc (s : str) (tb : list Block) (b : Block) :
  first_seen s (tb ++ [b])
  = match first_seen s tb with
    | Some i => Some i
    | None => if mentions s b then Some (List.length tb) else None
    end.
Proof.
  induction tb as [|x tb IH]; simpl.
  - destruct (mentions s b); reflexivity.
  - destruct (mentions s x); [reflexivity|].
    rewrite IH. destruct (first_seen s tb); simpl; [reflexivity|].
    destruct (mentions s b); reflexivity.
Qed.

Lemma detect_sections_snoc (tb : list Block) (b : Block) :
  detect_sections (tb ++ [b]) = scan_block (detect_sections tb) b.
Proof. unfold detect_sections. now rewrite fold_left_app. Qed.

End OrderProofs.

Section OrderTheorems.
Context {U : Unicode}.

Lemma new_sections_spec (out : list str) (b : Block) (s : str) :
  In s (filter (fun x => negb (list_in x out))
               (hits (lower (text b)) section_keywords))
  <-> mentions s b = true /\ ~ In s out.
Proof.
  rewrite filter_In, negb_true_iff, <- mentions_hits, <- list_in_In.
  destruct (list_in s out); intuition congruence.
Qed.

Lemma detect_sections_invariant (tb : list Block) :
  NoDup (detect_sections tb)
  /\ (forall s, In s (detect_sections tb) <-> first_seen s tb <> None)
  /\ (forall a b,
        precedes a b (detect_sections tb)
        <-> exists i j,
              first_seen a tb = Some i /\ first_seen b tb = Some j
              /\ (i < j \/ (i = j /\ precedes a b labels))).
Proof.
  induction tb as [|blk tb (Hnd & Hmem & Hord)] using rev_ind.
  - split; [constructor|]. split.
    + intros s. simpl. tauto.
    + intros a b. split; [intros H; now apply precedes_nil in H|].
      intros (i & j & H & _). discriminate.
  - rewrite detect_sections_snoc, scan_block_app.
    set (out := detect_sections tb) in *.
    set (new := filter _ _).
    pose proof (new_sections_spec out blk) as Hnew. fold new in Hnew.
    split; [|split].
    + apply NoDup_app; [exact Hnd | | ].
      * apply NoDup_filter, hits_NoDup, labels_NoDup.
      * intros s Hs Hs'. apply Hnew in Hs'. tauto.
    + intros s. rewrite in_app_iff, first_seen_snoc, Hnew.
      specialize (Hmem s).
      destruct (first_seen s tb); destruct (mentions s blk);
        intuition congruence.
    + intros a b. rewrite precedes_app, !first_seen_snoc.
      pose proof (Hmem a) as Ha. pose proof (Hmem b) as Hb.
      specialize (Hord a b).
      pose proof (@precedes_In a b out) as Hpin.
      destruct (first_seen a tb) as [ia|] eqn:Ea;
        destruct (first_seen b tb) as [ib|] eqn:Eb.
      * assert (In a out) by (apply Ha; discriminate).
        assert (In b out) by (apply Hb; discriminate).
        rewrite Hord. tauto.
      * assert (In a out) as Hina by (apply Ha; discriminate).
        assert (~ In b out) as Hnb by (intros H; apply Hb in H; congruence).
        pose proof (first_seen_lt _ _ Ea) as Hlt.
        rewrite (Hnew b). split.
        -- intros [H|[(_ & _ & Hm & _)|(H & _)]];
             [apply Hpin in H; tauto | | contradiction].
           rewrite Hm. exists ia, (List.length tb). auto.
        -- intros (i & j & _ & Hj & _).
           destruct (mentions b blk); [|discriminate]. right. left. auto.
      * assert (~ In a out) as Hna by (intros H; apply Ha in H; congruence).
        assert (In b out) as Hinb by (apply Hb; discriminate).
        pose proof (first_seen_lt _ _ Eb) as Hlt.
        split.
        -- intros [H|[(H & _)|(_ & H & _)]];
             [apply Hpin in H; tauto | contradiction | contradiction].
        -- intros (i & j & Hi & Hj & Hij).
           destruct (mentions a blk); [|discriminate].
           injection Hi as <-. injection Hj as <-. lia.
      * assert (~ In a out) as Hna by (intros H; apply Ha in H; congruence).
        assert (~ In b out) as Hnb by (intros H; apply Hb in H; congruence).
        assert (list_in a out = false) as Hla.
        { destruct (list_in a out) eqn:E; [apply list_in_In in E; tauto | reflexivity]. }
        assert (list_in b out = false) as Hlb.
        { destruct (list_in b out) eqn:E; [apply list_in_In in E; tauto | reflexivity]. }
        unfold new.
        rewrite (precedes_filter (fun x => negb (list_in x out)) a b);
          [|now rewrite Hla | now rewrite Hlb].
        rewrite (@precedes_hits (lower (text blk)) section_keywords a b labels_NoDup),
          <- !mentions_hits.
        fold labels. split.
        -- intros [H|[(H & _)|(_ & _ & Hma & Hmb & Hp)]];
             [apply Hpin in H; tauto | contradiction |].
           rewrite Hma, Hmb. exists (List.length tb), (List.length tb). auto.
        -- intros (i & j & Hi & Hj & Hij).
           destruct (mentions a blk); [|discriminate].
           destruct (mentions b blk); [|discriminate].
           injection Hi as <-. injection Hj as <-.
           right. right. destruct Hij as [Hij|[_ Hp]]; [lia|]. auto.
Qed.

(** C5 (as the code behaves): the output of detect_sections has no duplicate
    label and holds exactly the labels some fragment mentions; label a
    precedes label b in it exactly when a is first mentioned in an earlier
    fragment than b, or both are first mentioned in the same fragment and a
    comes before b in the keyword table. *)
Theorem detect_sections_first_seen_order (tb : list Block) :
  NoDup (detect_sections tb)
  /\ (forall s, In s (detect_sections tb) <-> exists i, first_seen s tb = Some i)
  /\ (forall a b,
        precedes a b (detect_sections tb)
        <-> exists i j,
              first_seen a tb = Some i /\ first_seen b tb = Some j
              /\ (i < j \/ (i = j /\ precedes a b labels))).
Proof.
  destruct (detect_sections_invariant tb) as (Hnd & Hmem & Hord).
  split; [exact Hnd|]. split; [|exact Hord].
  intros s. rewrite Hmem. destruct (first_seen s tb) as [i|].
  - split; [intros _; now exists i | discriminate].
  - split; [congruence | intros (i & H); discriminate].
Qed.

End OrderTheorems.

(** C5 (as the spec states it) fails: in the single fragment "Soup and Salad"
    both soups and salads are first mentioned at index 0, so soups is
    mentioned no later than salads; but the output is salads, soups, and
    soups does not precede salads in it. *)
Lemma detect_sections_tie_counterexample :
  let tb := [block_of "Soup and Salad"] in
  let out := detect_sections (U := ascii_tables) tb in
  out = [py "salads"; py "soups"]
  /\ first_seen (U := ascii_tables) (py "soups") tb = Some 0
  /\ first_seen (U := ascii_tables) (py "salads") tb = Some 0
  /\ 0 <= 0
  /\ ~ precedes (py "soups") (py "salads") out.
Proof.
  cbv zeta. repeat split; try (vm_compute; reflexivity); try lia.
  intros (i & j & Hi & Hj & Hlt).
  vm_compute in Hi, Hj. injection Hi as <-. injection Hj as <-. lia.
Qed.

(** * Further properties of the worker *)

(** ** Item extraction *)

Lemma map_snd_enumerate (A : Type) (l : list A) : map snd (enumerate l) = l.
Proof.
  unfold enumerate.
  rewrite <- (map_id l) at 3.
  apply (map_snd_enumerate_from (fun x => x)).
Qed.

Lemma header_scan_headers {U : Unicode} (tl cur : str) :
  header_scan tl cur = cur \/ In (header_scan tl cur) section_headers.
Proof.
  unfold header_scan. rewrite fold_assign_last.
  destruct (filter (fun s => str_in s tl) section_headers) as [|x l] eqn:E.
  - now left.
  - right. rewrite last_cons_default.
    assert (In (last l x) (x :: l)) as Hin.
    { clear. revert x. induction l as [|y l IH]; intros x; [now left|].
      rewrite last_cons_default. right. apply IH. }
    rewrite <- E in Hin. apply filter_In in Hin. tauto.
Qed.

Lemma header_scan_none {U : Unicode} (tl cur : str) :
  (forall s, In s section_headers -> str_in s tl = false) ->
  header_scan tl cur = cur.
Proof.
  intros H. unfold header_scan. rewrite fold_assign_last.
  replace (filter (fun s => str_in s tl) section_headers) with (@nil str);
    [reflexivity|].
  symmetry. induction section_headers as [|x l IH]; [reflexivity|].
  simpl. rewrite (H x) by now left. apply IH. intros s Hs. apply H. now right.
Qed.

Lemma fold_item_step_names {U : Unicode} (blocks : list Block)
    (l : list (nat * Block)) (st : str * list Item) :
  let out := snd (fold_left (item_step blocks) l st) in
  map name out
  = map name (snd st)
    ++ map text (filter (fun b => looks_like_item (text b)) (map snd l))
  /\ map item_bbox out
     = map item_bbox (snd st)
       ++ map bbox (filter (fun b => looks_like_item (text b)) (map snd l)).
Proof.
  cbv zeta. revert st. induction l as [|[i b] l IH]; intros [cur its]; simpl.
  - now rewrite !app_nil_r.
  - destruct (looks_like_item (text b)); simpl;
      destruct (IH (header_scan (lower (text b)) cur,
                    its ++ [{| name := text b;
                               section := header_scan (lower (text b)) cur;
                               price := lookahead blocks i;
                               item_bbox := bbox b |}])) as [IH1 IH2];
      destruct (IH (header_scan (lower (text b)) cur, its)) as [IH3 IH4].
    + rewrite IH1, IH2. simpl. rewrite !map_app, <- !app_assoc. split; reflexivity.
    + rewrite IH3, IH4. split; reflexivity.
Qed.

(** X1: extract_items emits one item for each fragment that looks like an
    item (more than 3 code points, at least one letter), in fragment order,
    with the fragment's text as name and its polygon unchanged; no other
    fragment gives an item. *)
Theorem extract_items_names_in_order {U : Unicode}
    (blocks : list Block) (sections : list str) :
  let kept := filter (fun b => looks_like_item (text b)) blocks in
  map name (extract_items blocks sections) = map text kept
  /\ map item_bbox (extract_items blocks sections) = map bbox kept
  /\ List.length (extract_items blocks sections) <= List.length blocks.
Proof.
  cbv zeta. unfold extract_items.
  destruct (fold_item_step_names blocks (enumerate blocks)
              (match sections with s :: _ => s | [] => unknown end, []))
    as [Hn Hb].
  rewrite map_snd_enumerate in Hn, Hb. simpl in Hn, Hb.
  split; [exact Hn|]. split; [exact Hb|].
  rewrite <- (length_map name), Hn, length_map.
  apply filter_length_le.
Qed.

Lemma fold_item_step_sections {U : Unicode} (blocks : list Block)
    (l : list (nat * Block)) (st : str * list Item) (init : str) :
  (fst st = init \/ In (fst st) section_headers) ->
  (forall it, In it (snd st) ->
              section it = init \/ In (section it) section_headers) ->
  forall it, In it (snd (fold_left (item_step blocks) l st)) ->
             section it = init \/ In (section it) section_headers.
Proof.
  revert st. induction l as [|[i b] l IH]; intros [cur its] Hcur Hits; simpl.
  - exact Hits.
  - simpl in Hcur.
    assert (header_scan (lower (text b)) cur = init
            \/ In (header_scan (lower (text b)) cur) section_headers) as Hnext.
    { destruct (header_scan_headers (lower (text b)) cur) as [->|H]; auto. }
    destruct (looks_like_item (text b)); apply IH; simpl; auto.
    intros it Hin. apply in_app_or in Hin. destruct Hin as [Hin|[<-|[]]]; auto.
Qed.

(** X2: the section of every item extract_items emits is the first entry of
    the sections argument ("unknown" when that list is empty) or one of the
    six labels of the header list; in particular "sides", which the header
    list lacks, is carried only when it is that first entry. *)
Theorem extract_items_section_range {U : Unicode}
    (blocks : list Block) (sections : list str) (it : Item) :
  In it (extract_items blocks sections) ->
  section it = match sections with s :: _ => s | [] => unknown end
  \/ In (section it) section_headers.
Proof.
  unfold extract_items. intros H.
  apply (fold_item_step_sections blocks (enumerate blocks)
           (match sections with s :: _ => s | [] => unknown end, [])).
  - now left.
  - intros ? [].
  - exact H.
Qed.

Lemma extract_items_section_range_witness :
  section {| name := py "Burger"; section := unknown;
             price := Some price_12_99; item_bbox := [] |} = unknown
  \/ In (section {| name := py "Burger"; section := unknown;
                    price := Some price_12_99; item_bbox := [] |})
        section_headers.
Proof.
  apply (@extract_items_section_range ascii_tables burger_blocks []).
  vm_compute. left. reflexivity.
Defined.

Lemma fold_item_step_no_header {U : Unicode} (blocks : list Block)
    (l : list (nat * Block)) (cur : str) (its : list Item) :
  (forall i b s, In (i, b) l -> In s section_headers ->
                 str_in s (lower (text b)) = false) ->
  (forall it, In it its -> section it = cur) ->
  forall it, In it (snd (fold_left (item_step blocks) l (cur, its))) ->
             section it = cur.
Proof.
  revert its. induction l as [|[i b] l IH]; intros its Hl Hits; simpl.
  - exact Hits.
  - rewrite (header_scan_none (lower (text b)) cur)
      by (intros s Hs; apply (Hl i b s); [now left | exact Hs]).
    destruct (looks_like_item (text b)); apply IH;
      try (intros; eapply Hl; [right; eassumption | assumption]); auto.
    intros it Hin. apply in_app_or in Hin. destruct Hin as [Hin|[<-|[]]]; auto.
Qed.

(** X3: on a page none of whose fragments contains one of the six header
    labels in its lower-cased text, every item postprocess emits carries the
    first section detect_sections found on that page, or "unknown" when it
    found none. *)
Theorem postprocess_default_section {U : Unicode} (blocks : list Block) (it : Item) :
  (forall b s, In b blocks -> In s section_headers ->
               str_in s (lower (text b)) = false) ->
  In it (items (postprocess blocks)) ->
  section it = hd unknown (sections (postprocess blocks)).
Proof.
  intros Hno Hin.
  change (items (postprocess blocks))
    with (extract_items blocks (detect_sections blocks)) in Hin.
  change (sections (postprocess blocks)) with (detect_sections blocks).
  unfold extract_items in Hin.
  replace (hd unknown (detect_sections blocks))
    with (match detect_sections blocks with s :: _ => s | [] => unknown end)
    by (destruct (detect_sections blocks); reflexivity).
  apply (@fold_item_step_no_header U blocks (enumerate blocks) _ []); auto.
  - intros i b s Hib. apply Hno.
    apply enumerate_nth in Hib. now apply nth_error_In in Hib.
  - intros ? [].
Qed.

Lemma postprocess_default_section_witness :
  section {| name := py "Caesar Salad $9"; section := py "appetizers";
             price := Some {| value := 9 # 1; currency := USD;
                              raw := py "$9"; position := 13 |};
             item_bbox := [] |}
  = hd unknown
       (sections (postprocess (U := ascii_tables)
                    [block_of "Starters"; block_of "Caesar Salad $9"])).
Proof.
  apply (@postprocess_default_section ascii_tables
           [block_of "Starters"; block_of "Caesar Salad $9"]).
  - intros b s [<-|[<-|[]]] Hs; vm_compute in Hs;
      repeat (destruct Hs as [<-|Hs]; [vm_compute; reflexivity|]); destruct Hs.
  - vm_compute. right. left. reflexivity.
Defined.

Lemma first_price_seq_none {U : Unicode} (blocks : list Block) (n i : nat) :
  first_price blocks (seq i n) = None ->
  forall j b, i <= j < i + n -> nth_error blocks j = Some b ->
              extract_prices (text b) = [].
Proof.
  revert i. induction n as [|n IH]; intros i H j b Hj Hb; [lia|].
  simpl in H. destruct (nth_error blocks i) as [bi|] eqn:Hi.
  - destruct (extract_prices (text bi)) eqn:Hp; [|discriminate].
    destruct (Nat.eq_dec j i) as [->|Hne].
    + rewrite Hb in Hi. injection Hi as ->. exact Hp.
    + apply (IH (S i) H j b); [lia | exact Hb].
  - apply nth_error_None in Hi.
    assert (nth_error blocks j = None) as Hnone by (apply nth_error_None; lia).
    congruence.
Qed.

Lemma first_price_seq_found {U : Unicode} (blocks : list Block) (n i j : nat)
    (b : Block) (p : Price) (rest : list Price) :
  i <= j < i + n ->
  j < List.length blocks ->
  nth_error blocks j = Some b ->
  extract_prices (text b) = p :: rest ->
  (forall k bk, i <= k < j -> nth_error blocks k = Some bk ->
                extract_prices (text bk) = []) ->
  first_price blocks (seq i n) = Some p.
Proof.
  revert i. induction n as [|n IH]; intros i Hj Hlen Hb Hp Hbefore; [lia|].
  simpl. destruct (nth_error blocks i) as [bi|] eqn:Hi.
  - destruct (Nat.eq_dec j i) as [->|Hne].
    + rewrite Hb in Hi. injection Hi as <-. now rewrite Hp.
    + rewrite (Hbefore i bi) by (try lia; exact Hi).
      apply IH; auto; try lia.
      intros k bk Hk. apply Hbefore. lia.
  - apply nth_error_None in Hi. lia.
Qed.

(** X4: the price loop of extract_items leaves the price of fragment i empty
    exactly when none of the fragments i, i+1, i+2 that exist yields a
    price. *)
Theorem lookahead_none_iff {U : Unicode} (blocks : list Block) (i : nat) :
  lookahead blocks i = None
  <-> forall j b, i <= j < i + 3 -> nth_error blocks j = Some b ->
                  extract_prices (text b) = [].
Proof.
  unfold lookahead, range. split.
  - intros H j b Hj Hb.
    assert (j < List.length blocks) by (apply nth_error_Some; congruence).
    apply (@first_price_seq_none U blocks _ i H j b); [lia | exact Hb].
  - intros H.
    destruct (first_price blocks
                (seq i (Nat.min (i + 3) (List.length blocks) - i))) as [p|] eqn:E;
      [|reflexivity].
    destruct (@first_price_seq U blocks _ i p E) as (j & b & rest & Hj & Hb & Hp & _).
    rewrite (H j b) in Hp; [discriminate | lia | exact Hb].
Qed.

(** X5: if fragment j is the earliest of the fragments i, i+1, i+2 whose text
    yields a price, the price loop attaches the first price of fragment j;
    in particular a price in the item's own text wins over later ones. *)
Theorem lookahead_takes_earliest {U : Unicode} (blocks : list Block) (i j : nat)
    (b : Block) (p : Price) (rest : list Price) :
  i <= j < i + 3 ->
  nth_error blocks j = Some b ->
  extract_prices (text b) = p :: rest ->
  (forall k bk, i <= k < j -> nth_error blocks k = Some bk ->
                extract_prices (text bk) = []) ->
  lookahead blocks i = Some p.
Proof.
  intros Hj Hb Hp Hbefore. unfold lookahead, range.
  assert (j < List.length blocks) by (apply nth_error_Some; congruence).
  apply (@first_price_seq_found U blocks _ i j b p rest); auto. lia.
Qed.

Lemma lookahead_takes_earliest_witness :
  lookahead (U := ascii_tables) burger_blocks 1 = Some price_12_99.
Proof.
  apply (@lookahead_takes_earliest ascii_tables burger_blocks 1 2
           (block_of "$12.99") price_12_99 []).
  - lia.
  - reflexivity.
  - vm_compute. reflexivity.
  - intros k bk Hk Hbk. assert (k = 1) as -> by lia.
    vm_compute in Hbk. injection Hbk as <-. vm_compute. reflexivity.
Defined.

(** ** Section detection *)

Lemma first_seen_mentions {U : Unicode} (s : str) (tb : list Block) (i : nat) :
  first_seen s tb = Some i -> exists b, In b tb /\ mentions s b = true.
Proof.
  revert i. induction tb as [|b tb IH]; intros i; simpl; [discriminate|].
  destruct (mentions s b) eqn:E.
  - intros _. exists b. auto.
  - destruct (first_seen s tb) as [k|]; simpl; [|discriminate].
    intros _. destruct (IH k eq_refl) as (b' & Hin & Hm). exists b'. auto.
Qed.

(** X6: every section detect_sections returns is one of the seven labels of
    the keyword table, so the result never has more than seven entries. *)
Theorem detect_sections_within_labels {U : Unicode} (tb : list Block) :
  incl (detect_sections tb) labels
  /\ List.length (detect_sections tb) <= 7.
Proof.
  destruct (detect_sections_invariant tb) as (Hnd & Hmem & _).
  assert (incl (detect_sections tb) labels) as Hincl.
  { intros s Hs. apply Hmem in Hs.
    destruct (first_seen s tb) as [i|] eqn:E; [|congruence].
    destruct (first_seen_mentions _ _ E) as (b & _ & Hm).
    apply mentions_hits in Hm. now apply hits_incl in Hm. }
  split; [exact Hincl|].
  change 7 with (List.length labels).
  now apply NoDup_incl_length.
Qed.

Lemma fold_scan_block_extends {U : Unicode} (tb : list Block) (d : list str) :
  exists extra, fold_left scan_block tb d = d ++ extra.
Proof.
  revert d. induction tb as [|b tb IH]; intros d; simpl.
  - exists []. now rewrite app_nil_r.
  - rewrite scan_block_app.
    destruct (IH (d ++ filter (fun s => negb (list_in s d))
                               (hits (lower (text b)) section_keywords)))
      as [extra ->].
    eexists. now rewrite <- app_assoc.
Qed.

(** X7: fragments added at the end of a page never remove or reorder the
    sections already detected: the result for the longer sequence starts with
    the result for the shorter one. *)
Theorem detect_sections_prefix {U : Unicode} (tb more : list Block) :
  exists extra,
    detect_sections (tb ++ more) = detect_sections tb ++ extra.
Proof.
  unfold detect_sections. rewrite fold_left_app.
  apply fold_scan_block_extends.
Qed.

(** ** Job outcomes *)

Section JobOutcomes.
Context {U : Unicode}.
Variables Image Exn : Type.
Variable preprocess : Image -> outcome Exn Image.
Variable extract_text : Image -> outcome Exn (list Block).
Variable store : DocumentResult -> outcome Exn unit.

Lemma process_pages_recognition_failure (good : list Image)
    (read : list (list Block)) (bad pre : Image) (rest : list Image) (e : Exn) :
  Forall2 (page_reads preprocess extract_text) good read ->
  preprocess bad = Return pre ->
  extract_text pre = Raise e ->
  forall idx all_results,
    process_pages preprocess extract_text idx (good ++ bad :: rest) all_results
    = Raise e.
Proof.
  intros Hgood Hpre Hbad.
  induction Hgood as [|image blocks images read' (p & Hp & Htext) _ IH];
    intros idx acc; simpl.
  - rewrite Hpre. simpl. now rewrite Hbad.
  - rewrite Hp. simpl. rewrite Htext. simpl. apply IH.
Qed.

(** X8: when the recognition engine raises on a page that follows pages that
    were read, process_ocr_job raises that error whatever pages remain, and
    main records the job as failed with it: a recognition error is no more
    confined to its page than a preprocessing error. *)
Theorem recognition_failure_fails_job (good : list Image)
    (read : list (list Block)) (bad pre : Image) (rest : list Image) (e : Exn) :
  Forall2 (page_reads preprocess extract_text) good read ->
  preprocess bad = Return pre ->
  extract_text pre = Raise e ->
  process_ocr_job preprocess extract_text store (good ++ bad :: rest) = Raise e
  /\ main_job preprocess extract_text store (good ++ bad :: rest) = failed e.
Proof.
  intros Hgood Hpre Hbad. unfold main_job, process_ocr_job.
  rewrite (process_pages_recognition_failure rest Hgood Hpre Hbad). simpl.
  split; reflexivity.
Qed.

(** X9: when every page is read but storing the assembled result raises,
    process_ocr_job raises that error and main records the job as failed:
    the Document Result is not returned. *)
Theorem store_failure_fails_job (images : list Image)
    (read : list (list Block)) (e : Exn) :
  Forall2 (page_reads preprocess extract_text) images read ->
  store (combine_results images (map page_result (enumerate read))) = Raise e ->
  process_ocr_job preprocess extract_text store images = Raise e
  /\ main_job preprocess extract_text store images = failed e.
Proof.
  intros Hread Hstore. unfold main_job, process_ocr_job.
  rewrite (process_pages_all_read Hread 0 []). simpl.
  unfold enumerate in Hstore. rewrite Hstore. simpl. split; reflexivity.
Qed.

Lemma process_pages_returns (images : list Image) :
  forall idx all_results results,
    process_pages preprocess extract_text idx images all_results = Return results ->
    exists read,
      Forall2 (page_reads preprocess extract_text) images read
      /\ results
         = all_results ++ map page_result (combine (seq idx (List.length read)) read).
Proof.
  induction images as [|image images IH]; intros idx acc results; simpl.
  - intros H. injection H as <-. exists []. split; [constructor|].
    now rewrite app_nil_r.
  - destruct (preprocess image) as [pre|e] eqn:Hpre; simpl; [|discriminate].
    destruct (extract_text pre) as [blocks|e] eqn:Htext; simpl; [|discriminate].
    intros H. destruct (IH _ _ _ H) as (read & Hread & ->).
    exists (blocks :: read). split.
    + constructor; [|exact Hread]. exists pre. auto.
    + rewrite <- app_assoc. reflexivity.
Qed.

(** X10: a Document Result is all or nothing: whenever process_ocr_job
    returns one, every page of the document was read and the result was
    stored; its pages are the Page Results of all pages in page order,
    numbered from 1, and total_pages is their number. *)
Theorem returned_document_is_complete (images : list Image) (doc : DocumentResult) :
  process_ocr_job preprocess extract_text store images = Return doc ->
  exists read,
    Forall2 (page_reads preprocess extract_text) images read
    /\ pages doc = map page_result (enumerate read)
    /\ map page_number (pages doc) = map Some (seq 1 (List.length images))
    /\ total_pages doc = List.length (pages doc)
    /\ store doc = Return tt.
Proof.
  unfold process_ocr_job.
  destruct (process_pages preprocess extract_text 0 images []) as [results|e] eqn:Hp;
    simpl; [|discriminate].
  destruct (store (combine_results images results)) as [[]|e] eqn:Hs;
    simpl; [|discriminate].
  intros H. injection H as <-.
  destruct (process_pages_returns _ _ _ Hp) as (read & Hread & ->).
  exists read. simpl in *. split; [exact Hread|]. split; [reflexivity|].
  split; [|split; [|exact Hs]].
  - unfold page_result. rewrite map_map. simpl.
    rewrite (Forall2_length Hread). apply page_numbers_from.
  - rewrite length_map, length_combine, length_seq, Nat.min_id.
    apply (Forall2_length Hread).
Qed.

(** X11: a document without pages does not fail: once the (empty) result is
    stored, process_ocr_job returns a Document Result with no pages, empty
    text and no items, and main records the job as completed. *)
Theorem empty_document_completes :
  let doc := {| pages := []; total_pages := 0; total_text := []; all_items := [] |} in
  store doc = Return tt ->
  process_ocr_job preprocess extract_text store [] = Return doc
  /\ main_job preprocess extract_text store [] = completed doc.
Proof.
  cbv zeta. intros Hstore. unfold main_job, process_ocr_job. simpl.
  unfold combine_results. simpl. rewrite Hstore. simpl. split; reflexivity.
Qed.

End JobOutcomes.

Lemma recognition_failure_fails_job_witness :
  process_ocr_job (U := ascii_tables) toy_preprocess strict_extract_text toy_store
    ([readable burger_blocks] ++ readable [] :: [readable soup_blocks])
  = Raise "ocr failed"%string
  /\ main_job (U := ascii_tables) toy_preprocess strict_extract_text toy_store
       ([readable burger_blocks] ++ readable [] :: [readable soup_blocks])
     = failed "ocr failed"%string.
Proof.
  apply (@recognition_failure_fails_job ascii_tables toy_image string
           toy_preprocess strict_extract_text toy_store
           [readable burger_blocks] [burger_blocks] (readable []) (readable [])
           [readable soup_blocks] "ocr failed"%string).
  - repeat (constructor; [eexists; split; reflexivity|]). constructor.
  - reflexivity.
  - reflexivity.
Defined.

Lemma store_failure_fails_job_witness :
  process_ocr_job (U := ascii_tables) toy_preprocess toy_extract_text full_store
    [readable burger_blocks; readable soup_blocks]
  = Raise "storage full"%string
  /\ main_job (U := ascii_tables) toy_preprocess toy_extract_text full_store
       [readable burger_blocks; readable soup_blocks]
     = failed "storage full"%string.
Proof.
  apply (@store_failure_fails_job ascii_tables toy_image string
           toy_preprocess toy_extract_text full_store
           [readable burger_blocks; readable soup_blocks]
           [burger_blocks; soup_blocks] "storage full"%string).
  - repeat (constructor; [eexists; split; reflexivity|]). constructor.
  - reflexivity.
Defined.

Lemma returned_document_is_complete_witness :
  exists read,
    Forall2 (page_reads toy_preprocess toy_extract_text) [readable soup_blocks] read
    /\ pages (combine_results [readable soup_blocks]
                (map (page_result (U := ascii_tables)) (enumerate [soup_blocks])))
       = map (page_result (U := ascii_tables)) (enumerate read)
    /\ map page_number
         (pages (combine_results [readable soup_blocks]
                   (map (page_result (U := ascii_tables)) (enumerate [soup_blocks]))))
       = map Some (seq 1 1)
    /\ total_pages (combine_results [readable soup_blocks]
                      (map (page_result (U := ascii_tables)) (enumerate [soup_blocks])))
       = List.length
           (pages (combine_results [readable soup_blocks]
                     (map (page_result (U := ascii_tables)) (enumerate [soup_blocks]))))
    /\ toy_store (combine_results [readable soup_blocks]
                    (map (page_result (U := ascii_tables)) (enumerate [soup_blocks])))
       = Return tt.
Proof.
  apply (@returned_document_is_complete ascii_tables toy_image string
           toy_preprocess toy_extract_text toy_store [readable soup_blocks]).
  reflexivity.
Defined.

Lemma empty_document_completes_witness :
  toy_job (U := ascii_tables) []
  = Return {| pages := []; total_pages := 0; total_text := []; all_items := [] |}
  /\ toy_main (U := ascii_tables) []
     = completed {| pages := []; total_pages := 0; total_text := []; all_items := [] |}.
Proof.
  apply (@empty_document_completes ascii_tables toy_image string
           toy_preprocess toy_extract_text toy_store).
  reflexivity.
Defined.

(** ** Storage paths *)

Lemma starts_with_singleton (c : N) (s : str) :
  starts_with [c] s = match s with x :: _ => (c =? x)%N | [] => false end.
Proof.
  destruct s as [|x s]; simpl; [reflexivity|].
  destruct s; now rewrite andb_true_r.
Qed.

Lemma str_in_singleton (c : N) (s : str) : str_in [c] s = true <-> In c s.
Proof.
  induction s as [|x s IH].
  - simpl. split; [discriminate | tauto].
  - change (str_in [c] (x :: s)) with (starts_with [c] (x :: s) || str_in [c] s).
    rewrite starts_with_singleton, orb_true_iff, IH, N.eqb_eq. simpl.
    split; intros [H|H]; auto.
Qed.

Lemma split_not_nil (sep : N) (s : str) : split sep s <> [].
Proof.
  destruct s as [|c s]; simpl; [discriminate|].
  destruct (c =? sep)%N; [discriminate|].
  destruct (split sep s); discriminate.
Qed.

Lemma split_no_sep (sep : N) (s : str) : ~ In sep s -> split sep s = [s].
Proof.
  induction s as [|c s IH]; intros H; simpl; [reflexivity|].
  destruct (N.eqb_spec c sep) as [->|Hne]; [exfalso; apply H; now left|].
  rewrite IH; [reflexivity|]. intros Hin. apply H. now right.
Qed.

Lemma split_app (sep : N) (a b : str) :
  split sep (a ++ sep :: b) = split sep a ++ split sep b.
Proof.
  induction a as [|c a IH]; simpl.
  - now rewrite N.eqb_refl.
  - destruct (c =? sep)%N; rewrite IH; [reflexivity|].
    pose proof (split_not_nil sep a) as Hne.
    destruct (split sep a); [contradiction | reflexivity].
Qed.

Lemma rsplit_once_none (sep : N) (s : str) : ~ In sep s -> rsplit_once sep s = None.
Proof.
  induction s as [|c s IH]; intros H; simpl; [reflexivity|].
  rewrite IH by (intros Hin; apply H; now right).
  destruct (N.eqb_spec c sep) as [->|Hne]; [exfalso; apply H; now left | reflexivity].
Qed.

Lemma rsplit_once_last (sep : N) (a b : str) :
  ~ In sep b -> rsplit_once sep (a ++ sep :: b) = Some (a, b).
Proof.
  intros H. induction a as [|c a IH]; simpl.
  - now rewrite (@rsplit_once_none sep b H), N.eqb_refl.
  - now rewrite IH.
Qed.

(** X12: the download always uses the storage path unchanged as file path;
    the bucket is "artifacts" for every storage path that contains a slash,
    and is the whole storage path for one that contains none. *)
Theorem bucket_and_file_path (storage_path : str) :
  file_path_of storage_path = storage_path
  /\ bucket_of storage_path
     = if str_in (py "/") storage_path then py "artifacts" else storage_path.
Proof.
  unfold file_path_of, bucket_of. split.
  - destruct (str_in (py "/") storage_path); reflexivity.
  - destruct (str_in (py "/") storage_path) eqn:E; simpl; [reflexivity|].
    rewrite split_no_sep; [reflexivity|].
    intros Hin. apply (str_in_singleton 47) in Hin.
    change (py "/") with [47%N] in E. congruence.
Qed.

(** X13: for a storage path of the form stem.ext whose ext has no dot, the
    result is stored under stem followed by "-ocr-result.json", and the file
    type is decided by ext lower-cased. *)
Theorem result_path_replaces_extension {U : Unicode} (stem ext : str) :
  ~ In 46%N ext ->
  result_path_of (stem ++ 46%N :: ext) = stem ++ py "-ocr-result.json"
  /\ file_ext_of (stem ++ 46%N :: ext) = lower ext.
Proof.
  intros H. unfold result_path_of, file_ext_of, rsplit1. split.
  - now rewrite (@rsplit_once_last 46%N stem ext H).
  - rewrite split_app, (@split_no_sep 46%N ext H), last_last. reflexivity.
Qed.

Lemma result_path_replaces_extension_witness :
  result_path_of (py "menus/lunch" ++ 46%N :: py "PDF")
  = py "menus/lunch" ++ py "-ocr-result.json"
  /\ file_ext_of (U := ascii_tables) (py "menus/lunch" ++ 46%N :: py "PDF")
     = lower (Unicode := ascii_tables) (py "PDF").
Proof.
  apply (@result_path_replaces_extension ascii_tables (py "menus/lunch") (py "PDF")).
  vm_compute. intuition discriminate.
Defined.

(** X14: for a storage path without any dot, the result path is the whole
    path followed by "-ocr-result.json", and the file type is decided by the
    whole path lower-cased (so the file is read as an image unless the path
    itself lower-cases to "pdf"). *)
Theorem result_path_without_extension {U : Unicode} (storage_path : str) :
  ~ In 46%N storage_path ->
  result_path_of storage_path = storage_path ++ py "-ocr-result.json"
  /\ file_ext_of storage_path = lower storage_path.
Proof.
  intros H. unfold result_path_of, file_ext_of, rsplit1.
  now rewrite (@rsplit_once_none 46%N storage_path H), (@split_no_sep 46%N storage_path H).
Qed.

Lemma result_path_without_extension_witness :
  result_path_of (py "scan") = py "scan" ++ py "-ocr-result.json"
  /\ file_ext_of (U := ascii_tables) (py "scan")
     = lower (Unicode := ascii_tables) (py "scan").
Proof.
  apply (@result_path_without_extension ascii_tables (py "scan")).
  vm_compute. intuition discriminate.
Defined.

(** ** Image normalizer *)

(** X16: for a rectangle angle between -90 and 0 degrees, as
    cv2.minAreaRect reports it, the image is rotated only by an angle of
    magnitude above 0.5 and at most 45 degrees.  (0, 0.5, 45 and 90 are
    binary64 numbers, so rounding the one sum cannot cross the bounds.) *)
Theorem deskew_rotation_bounded (angle a : Q) :
  (- (90 # 1) <= angle)%Q -> (angle <= 0)%Q ->
  deskew_rotation angle = Some a ->
  ((1 # 2) < Qabs a)%Q /\ (Qabs a <= 45 # 1)%Q.
Proof.
  intros Hlo Hhi. unfold deskew_rotation.
  destruct (Qlt_le_dec (1 # 2) (Qabs (corrected_angle angle))) as [Hbig|Hsmall];
    [|discriminate].
  intros H. injection H as <-. split; [exact Hbig|].
  apply Qabs_Qle_condition. unfold corrected_angle.
  destruct (Qlt_le_dec angle (- (45 # 1))); split; lra.
Qed.

Lemma deskew_rotation_bounded_witness :
  ((1 # 2) < Qabs (- (10 # 1)))%Q /\ (Qabs (- (10 # 1)) <= 45 # 1)%Q.
Proof.
  apply (@deskew_rotation_bounded (- (80 # 1)) (- (10 # 1))).
  - vm_compute. discriminate.
  - vm_compute. discriminate.
  - vm_compute. reflexivity.
Defined.

(** ** Empty pages *)

(** X17: a page on which the engine recognises nothing (it answers None, an
    empty list, or a list whose first entry is None or empty) still yields a
    Page Result: empty text, no blocks, prices, sections or items. *)
Theorem empty_recognition_gives_empty_page {U : Unicode}
    (rest : list (option (list OcrLine))) :
  Forall
    (fun result =>
       postprocess (blocks_of_result result)
       = {| full_text := []; text_blocks := []; prices := []; sections := [];
            items := []; block_count := 0; page_number := None |})
    [None; Some []; Some (None :: rest); Some (Some [] :: rest)].
Proof. repeat constructor. Qed.

(** ** Price extraction *)

Section PriceProperties.
Context {U : Unicode}.

Lemma star_matches_split (c : cset) (s m rest : str) :
  In (m, rest) (star_matches c s) -> s = m ++ rest.
Proof.
  revert m rest. induction s as [|x s IH]; intros m rest; simpl.
  - intros [H|[]]. now injection H as <- <-.
  - destruct (cset_mem c x).
    + intros H. apply in_app_or in H. destruct H as [H|[H|[]]].
      * apply in_map_iff in H. destruct H as ([m' r'] & Heq & Hin).
        simpl in Heq. injection Heq as <- <-.
        simpl. f_equal. now apply IH.
      * now injection H as <- <-.
    + intros [H|[]]. now injection H as <- <-.
Qed.

Lemma matches_seq_inv (r1 r2 : regex) (s m rest : str) :
  In (m, rest) (matches (Seq r1 r2) s) ->
  exists m1 s1 m2,
    In (m1, s1) (matches r1 s) /\ In (m2, rest) (matches r2 s1) /\ m = m1 ++ m2.
Proof.
  simpl. intros H. apply in_flat_map in H. destruct H as ([m1 s1] & H1 & H).
  apply in_map_iff in H. destruct H as ([m2 s2] & Heq & H2).
  simpl in Heq. injection Heq as <- <-.
  exists m1, s1, m2. auto.
Qed.

Lemma matches_split (r : regex) (s m rest : str) :
  In (m, rest) (matches r s) -> s = m ++ rest.
Proof.
  revert s m rest. induction r as [|c|r1 IH1 r2 IH2|r IH|c]; intros s m rest H.
  - destruct H as [H|[]]. now injection H as <- <-.
  - simpl in H. destruct s as [|x s]; [destruct H|].
    destruct (cset_mem c x); [|destruct H].
    destruct H as [H|[]]. now injection H as <- <-.
  - apply matches_seq_inv in H. destruct H as (m1 & s1 & m2 & H1 & H2 & ->).
    rewrite (IH1 _ _ _ H1), (IH2 _ _ _ H2). now rewrite app_assoc.
  - simpl in H. apply in_app_or in H. destruct H as [H|[H|[]]].
    + now apply IH.
    + now injection H as <- <-.
  - now apply (@star_matches_split c).
Qed.

Lemma matches_reads_digit (r : regex) (s m rest : str) :
  reads_digit r = true ->
  In (m, rest) (matches r s) ->
  exists x, In x m /\ decimal x <> None.
Proof.
  revert s m rest. induction r as [|c|r1 IH1 r2 IH2|r IH|c]; intros s m rest Hd H;
    try discriminate.
  - destruct c; try discriminate.
    simpl in H. destruct s as [|x s]; [destruct H|].
    destruct (decimal x) eqn:E; [|destruct H].
    destruct H as [H|[]]. injection H as <- <-.
    exists x. split; [now left | congruence].
  - apply matches_seq_inv in H. destruct H as (m1 & s1 & m2 & H1 & H2 & ->).
    simpl in Hd. apply orb_true_iff in Hd. destruct Hd as [Hd|Hd].
    + destruct (IH1 _ _ _ Hd H1) as (x & Hx & Hdx).
      exists x. split; [apply in_or_app; now left | exact Hdx].
    + destruct (IH2 _ _ _ Hd H2) as (x & Hx & Hdx).
      exists x. split; [apply in_or_app; now right | exact Hdx].
Qed.

Lemma match_at_inv (p : pattern) (s : str) (pos : nat) (m : Match) :
  match_at p s pos = Some m ->
  exists a s1 s2 z rest,
    In (a, s1) (matches (before p) s)
    /\ In (group1 m, s2) (matches (group p) s1)
    /\ In (z, rest) (matches (after p) s2)
    /\ group0 m = a ++ group1 m ++ z
    /\ start m = pos
    /\ s = group0 m ++ rest.
Proof.
  unfold match_at. intros H.
  match type of H with
  | hd_error ?l = _ =>
    assert (In m l) as Hin
      by (destruct l; [discriminate | injection H as ->; now left])
  end.
  clear H. apply in_flat_map in Hin. destruct Hin as ([a s1] & Ha & Hin).
  apply in_flat_map in Hin. destruct Hin as ([g s2] & Hg & Hin).
  apply in_map_iff in Hin. destruct Hin as ([z rest] & <- & Hz).
  simpl in *. exists a, s1, s2, z, rest. repeat split; auto.
  rewrite (@matches_split _ _ _ _ Ha), (@matches_split _ _ _ _ Hg),
    (@matches_split _ _ _ _ Hz).
  now rewrite <- !app_assoc.
Qed.

Lemma finditer_from_inv (p : pattern) (s : str) (pos skip : nat) (m : Match) :
  In m (finditer_from p s pos skip) ->
  exists k, start m = pos + k /\ match_at p (skipn k s) (pos + k) = Some m.
Proof.
  revert pos skip. induction s as [|x s IH]; intros pos skip; simpl; [tauto|].
  assert (forall n, In m (finditer_from p s (S pos) n) ->
                    exists k, start m = pos + k
                              /\ match_at p (skipn k (x :: s)) (pos + k) = Some m)
    as Hnext.
  { intros n H. destruct (IH _ _ H) as (k & Hk & Hm).
    exists (S k). simpl. rewrite <- plus_n_Sm. auto. }
  destruct skip as [|n]; [|apply Hnext].
  destruct (match_at p (x :: s) pos) as [m0|] eqn:E; [|apply Hnext].
  intros [<-|H]; [|now apply (Hnext _ H)].
  exists 0. rewrite Nat.add_0_r. split; [|exact E].
  now destruct (@match_at_inv _ _ _ _ E) as (_ & _ & _ & _ & _ & _ & _ & _ & _ & Hs & _).
Qed.

Lemma price_patterns_read_digit :
  Forall (fun p => reads_digit (group p) = true) price_patterns.
Proof. repeat constructor. Qed.

(** Every price comes from a match of one of the four patterns somewhere in
    the text. *)
Lemma extract_prices_origin (t : str) (pr : Price) :
  In pr (extract_prices t) ->
  exists rest,
    skipn (position pr) t = raw pr ++ rest
    /\ exists x, In x (raw pr) /\ decimal x <> None.
Proof.
  unfold extract_prices. intros H.
  apply in_flat_map in H. destruct H as (p & Hp & H).
  apply in_map_iff in H. destruct H as (m & <- & Hm).
  unfold finditer in Hm. apply finditer_from_inv in Hm.
  destruct Hm as (k & Hk & Hm). simpl in Hk, Hm. simpl.
  destruct (@match_at_inv _ _ _ _ Hm) as (a & s1 & s2 & z & rest & _ & Hg & _ & H0 & _ & Hs).
  rewrite Hk. exists rest. split; [exact Hs|].
  pose proof (proj1 (Forall_forall _ _) price_patterns_read_digit p Hp) as Hd.
  destruct (@matches_reads_digit _ _ _ _ Hd Hg) as (x & Hx & Hdx).
  exists x. split; [|exact Hdx].
  rewrite H0. apply in_or_app. right. apply in_or_app. now left.
Qed.

(** X18: every Price extract_prices returns records where it was found: its
    raw text is not empty and is exactly the slice of the text that starts at
    its position, which therefore ends within the text. *)
Theorem extract_prices_raw_is_slice (t : str) (pr : Price) :
  In pr (extract_prices t) ->
  raw pr <> []
  /\ firstn (List.length (raw pr)) (skipn (position pr) t) = raw pr
  /\ position pr + List.length (raw pr) <= List.length t.
Proof.
  intros H. destruct (@extract_prices_origin _ _ H) as (rest & Hs & x & Hx & _).
  assert (raw pr <> []) as Hne by (intros E; rewrite E in Hx; destruct Hx).
  split; [exact Hne|]. split.
  - rewrite Hs, firstn_app, Nat.sub_diag, firstn_all. simpl. now rewrite app_nil_r.
  - pose proof (f_equal (@List.length N) Hs) as Hlen.
    rewrite length_skipn, length_app in Hlen.
    destruct (raw pr) as [|c r]; [congruence|]. simpl in *. lia.
Qed.

(** X19: a text without any decimal digit yields no price. *)
Theorem extract_prices_needs_digit (t : str) :
  (forall x, In x t -> decimal x = None) ->
  extract_prices t = [].
Proof.
  intros Hno. destruct (extract_prices t) as [|pr l] eqn:E; [reflexivity|].
  assert (In pr (extract_prices t)) as Hin by (rewrite E; now left).
  destruct (@extract_prices_origin _ _ Hin) as (rest & Hs & x & Hx & Hd).
  exfalso. apply Hd, Hno.
  assert (In x (skipn (position pr) t)) as Hsk
    by (rewrite Hs; apply in_or_app; now left).
  rewrite <- (firstn_skipn (position pr) t). apply in_or_app. now right.
Qed.

End PriceProperties.

Lemma extract_prices_raw_is_slice_witness :
  raw price_12_99 <> []
  /\ firstn (List.length (raw price_12_99)) (skipn (position price_12_99) (py "$12.99"))
     = raw price_12_99
  /\ position price_12_99 + List.length (raw price_12_99) <= List.length (py "$12.99").
Proof.
  apply (@extract_prices_raw_is_slice ascii_tables (py "$12.99") price_12_99).
  vm_compute. left. reflexivity.
Defined.

Lemma extract_prices_needs_digit_witness :
  extract_prices (U := ascii_tables) (py "Soup of the day") = [].
Proof.
  apply (@extract_prices_needs_digit ascii_tables (py "Soup of the day")).
  intros x Hx. vm_compute in Hx.
  repeat (destruct Hx as [<-|Hx]; [reflexivity|]). destruct Hx.
Defined.

(** ** Items and the fragments they are made from *)

Lemma last_app_default (A : Type) (l1 l2 : list A) (d : A) :
  last (l1 ++ l2) d = last l2 (last l1 d).
Proof.
  revert d. induction l1 as [|a l1 IH]; intros d; [reflexivity|].
  change ((a :: l1) ++ l2) with (a :: (l1 ++ l2)).
  now rewrite !last_cons_default, IH.
Qed.

Lemma item_step_eq {U : Unicode} (blocks : list Block) (cur : str)
    (its : list Item) (i : nat) (b : Block) :
  item_step blocks (cur, its) (i, b)
  = (header_scan (lower (text b)) cur,
     if looks_like_item (text b)
     then its ++ [{| name := text b;
                     section := header_scan (lower (text b)) cur;
                     price := lookahead blocks i;
                     item_bbox := bbox b |}]
     else its).
Proof. unfold item_step. destruct (looks_like_item (text b)); reflexivity. Qed.

(** The scan, started after the fragments [pre] with the section they leave,
    appends the items of the remaining fragments that look like items. *)
Lemma fold_item_step_items {U : Unicode} (blocks : list Block) (init : str)
    (bs pre : list Block) (its : list Item) :
  blocks = pre ++ bs ->
  snd (fold_left (item_step blocks)
         (combine (seq (List.length pre) (List.length bs)) bs)
         (last (flat_map header_labels_in pre) init, its))
  = its ++ map (item_of_fragment blocks init)
             (filter (fun ib => looks_like_item (text (snd ib)))
                     (combine (seq (List.length pre) (List.length bs)) bs)).
Proof.
  revert pre its. induction bs as [|b bs IH]; intros pre its Hblocks.
  - simpl. now rewrite app_nil_r.
  - assert (blocks = (pre ++ [b]) ++ bs) as Hblocks'
      by (rewrite <- app_assoc; exact Hblocks).
    assert (S (List.length pre) = List.length (pre ++ [b])) as Hlen
      by (rewrite length_app; simpl; lia).
    assert (firstn (S (List.length pre)) blocks = pre ++ [b]) as Hfirst.
    { rewrite Hblocks' at 1.
      rewrite Hlen, firstn_app, firstn_all, Nat.sub_diag.
      change (firstn 0 bs) with (@nil Block). apply app_nil_r. }
    assert (header_scan (lower (text b)) (last (flat_map header_labels_in pre) init)
            = last (flat_map header_labels_in (pre ++ [b])) init) as Hcur.
    { unfold header_scan. rewrite fold_assign_last. fold (header_labels_in b).
      rewrite flat_map_app, last_app_default. simpl. now rewrite app_nil_r. }
    change (combine (seq (List.length pre) (List.length (b :: bs))) (b :: bs))
      with ((List.length pre, b)
              :: combine (seq (S (List.length pre)) (List.length bs)) bs).
    cbn [fold_left filter snd].
    rewrite item_step_eq, Hcur, Hlen, (IH (pre ++ [b]) _ Hblocks').
    destruct (looks_like_item (text b)); [|reflexivity].
    rewrite <- app_assoc. cbn [map app]. do 2 f_equal.
    unfold item_of_fragment. cbn [fst snd]. now rewrite Hfirst.
Qed.

Lemma extract_items_by_fragment {U : Unicode} (blocks : list Block)
    (sections : list str) :
  extract_items blocks sections
  = map (item_of_fragment blocks
           (match sections with s :: _ => s | [] => unknown end))
        (item_fragments blocks).
Proof.
  unfold extract_items, item_fragments, enumerate.
  apply (@fold_item_step_items U blocks _ blocks [] []). reflexivity.
Qed.

Lemma item_fragments_nth {U : Unicode} (blocks : list Block) (k i : nat) (b : Block) :
  nth_error (item_fragments blocks) k = Some (i, b) ->
  nth_error blocks i = Some b.
Proof.
  intros H. apply nth_error_In in H. apply filter_In in H.
  now apply enumerate_nth.
Qed.

Lemma nth_item_of_fragment {U : Unicode} (blocks : list Block)
    (sections : list str) (k : nat) (it : Item) :
  nth_error (extract_items blocks sections) k = Some it ->
  exists i b,
    nth_error (item_fragments blocks) k = Some (i, b)
    /\ nth_error blocks i = Some b
    /\ it = item_of_fragment blocks
              (match sections with s :: _ => s | [] => unknown end) (i, b).
Proof.
  rewrite extract_items_by_fragment, nth_error_map.
  destruct (nth_error (item_fragments blocks) k) as [[i b]|] eqn:E;
    simpl; [|discriminate].
  intros H. injection H as <-. exists i, b.
  split; [reflexivity|]. split; [|reflexivity].
  now apply (@item_fragments_nth U blocks k).
Qed.

(** C10: the k-th item extract_items emits is made from the k-th fragment
    that looks like an item, say fragment i, and it has the price p exactly
    when p is the head of the list extract_prices returns for the earliest
    fragment j among i, i+1, i+2 whose text yields a price: every fragment of
    the window before j yields none, and no further price of fragment j is
    attached. *)
Theorem extract_items_price_is_first_of_window {U : Unicode}
    (blocks : list Block) (sections : list str) (k : nat) (it : Item) :
  nth_error (extract_items blocks sections) k = Some it ->
  exists i bi,
    nth_error (item_fragments blocks) k = Some (i, bi)
    /\ nth_error blocks i = Some bi
    /\ name it = text bi
    /\ forall p,
         price it = Some p
         <-> exists j bj rest,
               i <= j < i + 3
               /\ nth_error blocks j = Some bj
               /\ extract_prices (text bj) = p :: rest
               /\ forall n bn, i <= n < j -> nth_error blocks n = Some bn ->
                               extract_prices (text bn) = [].
Proof.
  intros H. destruct (nth_item_of_fragment _ _ _ H) as (i & bi & Hk & Hi & ->).
  exists i, bi. split; [exact Hk|]. split; [exact Hi|]. split; [reflexivity|].
  intros p. unfold item_of_fragment. cbn [price fst]. split.
  - apply lookahead_first.
  - intros (j & bj & rest & Hj & Hbj & Hp & Hbefore).
    unfold lookahead, range.
    assert (j < List.length blocks) by (apply nth_error_Some; congruence).
    apply (@first_price_seq_found U blocks _ i j bj p rest); auto. lia.
Qed.

Lemma extract_items_price_is_first_of_window_witness :
  exists i bi,
    nth_error (item_fragments (U := ascii_tables) soup_twice_blocks) 3 = Some (i, bi)
    /\ nth_error soup_twice_blocks i = Some bi
    /\ py "Soup" = text bi
    /\ forall p,
         Some price_2_00 = Some p
         <-> exists j bj rest,
               i <= j < i + 3
               /\ nth_error soup_twice_blocks j = Some bj
               /\ extract_prices (U := ascii_tables) (text bj) = p :: rest
               /\ forall n bn, i <= n < j -> nth_error soup_twice_blocks n = Some bn ->
                               extract_prices (U := ascii_tables) (text bn) = [].
Proof.
  apply (@extract_items_price_is_first_of_window ascii_tables soup_twice_blocks [] 3
           {| name := py "Soup"; section := unknown;
              price := Some price_2_00; item_bbox := [] |}).
  vm_compute. reflexivity.
Defined.

(** Two fragments with the same text are priced each from its own window:
    the first "Soup" gets 1.00 from fragment 1, the second 2.00 from
    fragment 5. *)
Example same_text_own_window :
  map (fun it => (name it, option_map value (price it)))
      (extract_items (U := ascii_tables) soup_twice_blocks [])
  = [(py "Soup", Some (100 # 100)); (py "Tea!", None);
     (py "Cake", Some (200 # 100)); (py "Soup", Some (200 # 100))]
  /\ map fst (item_fragments (U := ascii_tables) soup_twice_blocks) = [0; 2; 3; 4].
Proof. split; vm_compute; reflexivity. Qed.

(** X21: every item extract_items emits is filed under the most recent
    header: the k-th item is made from the k-th fragment that looks like an
    item, say fragment i, and carries the last header label found in the
    fragments 0..i (within one fragment, the last one in list order), or the
    first entry of the sections argument ("unknown" if it is empty) when
    none of them contains a label. *)
Theorem extract_items_running_section {U : Unicode}
    (blocks : list Block) (sections : list str) (k : nat) (it : Item) :
  nth_error (extract_items blocks sections) k = Some it ->
  exists i b,
    nth_error (item_fragments blocks) k = Some (i, b)
    /\ nth_error blocks i = Some b
    /\ name it = text b
    /\ section it
       = last (flat_map header_labels_in (firstn (S i) blocks))
              (match sections with s :: _ => s | [] => unknown end).
Proof.
  intros H. destruct (nth_item_of_fragment _ _ _ H) as (i & b & Hk & Hi & ->).
  exists i, b. repeat split; auto.
Qed.

Lemma extract_items_running_section_witness :
  exists i b,
    nth_error (item_fragments (U := ascii_tables) wine_twice_blocks) 3 = Some (i, b)
    /\ nth_error wine_twice_blocks i = Some b
    /\ py "House wine" = text b
    /\ py "drinks"
       = last (flat_map (header_labels_in (U := ascii_tables))
                 (firstn (S i) wine_twice_blocks))
              (match [py "appetizers"] with s :: _ => s | [] => unknown end).
Proof.
  apply (@extract_items_running_section ascii_tables wine_twice_blocks
           [py "appetizers"] 3
           {| name := py "House wine"; section := py "drinks";
              price := None; item_bbox := [] |}).
  vm_compute. reflexivity.
Defined.

(** Two fragments with the same text are filed each under its own header. *)
Example same_text_own_section :
  map (fun it => (name it, section it))
      (extract_items (U := ascii_tables) wine_twice_blocks [py "appetizers"])
  = [(py "Mains", py "mains"); (py "House wine", py "mains");
     (py "Drinks", py "drinks"); (py "House wine", py "drinks")].
Proof. vm_compute. reflexivity. Qed.
